(** * node-audio-windows: the volume controller add-on

    A shallow embedding of [src/volume_controller.cc].  The add-on is a thin
    adapter: every operation validates a scalar or two, performs a short,
    fixed sequence of operating-system calls and turns a failure into an
    error string.  The embedding therefore keeps the operating system
    outside: a program is a tree of OS calls ([Prog]), each node carrying the
    call with the arguments the source passes and a continuation that
    receives the OS's answer.  Running such a tree against any OS ([run])
    yields the outcome, the final world and the log of calls made.

    Covered: [string_format], [checkErrors], [class VolumeControl] and the
    callbacks and [Init] of [class VolumeControlWrapper].  The module-level
    [InitModule] / [UnInitialize] pair (COM initialisation and teardown)
    is not modelled. *)

From Stdlib Require Import ZArith List String Ascii Bool Lia QArith.
From Stdlib Require Import Floats.SpecFloat.
From ExtLib Require Import Structures.Monad.
Import ListNotations.
Import MonadNotation.

Local Open Scope Z_scope.
Local Open Scope monad_scope.

(* ===================================================================== *)
(** ** Machine integers and Win32 result codes *)
(* ===================================================================== *)

Module Win32.

(** A 32-bit integer, read as unsigned ([DWORD], [UINT]). *)
Definition to_uint32 (z : Z) : Z := z mod 2 ^ 32.

(** A 32-bit integer, read as signed ([HRESULT], [LONG], [int]). *)
Definition to_int32 (z : Z) : Z := (z + 2 ^ 31) mod 2 ^ 32 - 2 ^ 31.

Definition HRESULT := Z.
Definition DWORD := Z.
Definition UINT := Z.
Definition LRESULT := Z.

(** Win32's [BOOL] is an [int]; [TRUE] is 1 and [FALSE] is 0. *)
Definition BOOL := Z.
Definition TRUE : BOOL := 1.
Definition FALSE : BOOL := 0.

(** The implicit conversion from C++ [bool] to [BOOL]. *)
Definition BOOL_of_bool (b : bool) : BOOL := if b then TRUE else FALSE.

(** Window handles and COM interface pointers are addresses; 0 is the
    null handle / null pointer. *)
Definition HWND := Z.
Definition ComPtr := Z.
Definition NULL : Z := 0.

(** Modelled from the spec: the Windows SDK macro [FAILED] is not part of
    the source.  An OS result code is a failure when, read as a signed
    32-bit integer, it is negative ("a real failure code"). *)
Definition FAILED (hr : HRESULT) : bool := to_int32 hr <? 0.

(** Modelled from the spec: the Windows SDK constant [ERROR_SUCCESS], the
    generic "success" sentinel of the last-error code. *)
Definition ERROR_SUCCESS : DWORD := 0.

(** Modelled from the spec: the Windows SDK constant [FACILITY_WIN32], the
    facility number of result codes made from last-error codes. *)
Definition FACILITY_WIN32 : Z := 7.

(** Modelled from the spec: the Windows SDK function
    [HRESULT_FROM_WIN32] is not part of the source.  It leaves the
    success sentinel (and anything that already reads as a non-positive
    [HRESULT]) alone and tags every other last-error code as a failure of
    the Win32 facility, keeping its low 16 bits. *)
Definition HRESULT_FROM_WIN32 (x : DWORD) : HRESULT :=
  if to_int32 x <=? 0
  then to_int32 x
  else to_int32 (Z.lor (Z.lor (Z.land (to_uint32 x) 65535)
                              (Z.shiftl FACILITY_WIN32 16))
                       2147483648).

(** The COM classes and interfaces the source names with [__uuidof]. *)
Inductive GUID :=
| uuidof_MMDeviceEnumerator
| uuidof_IMMDeviceEnumerator
| uuidof_IAudioEndpointVolume.

Inductive CLSCTX := CLSCTX_INPROC_SERVER.
Inductive EDataFlow := eRender | eCapture | eAll.
Inductive ERole := eConsole | eMultimedia | eCommunications.

(** The one window message and the one send flag the source uses. *)
Inductive WindowMessage := WM_COPYDATA.
Inductive SendFlags := SMTO_ABORTIFHUNG.

End Win32.
Import Win32.

(* ===================================================================== *)
(** ** Floating point *)
(* ===================================================================== *)

(** C++ [float] is IEEE binary32 and [double] is binary64; both are
    [spec_float]s, canonical for their precision and exponent range. *)
Definition float := spec_float.
Definition double := spec_float.

Definition float_prec : Z := 24.
Definition float_emax : Z := 128.
Definition double_prec : Z := 53.
Definition double_emax : Z := 1024.

Definition is_float (x : spec_float) : bool := valid_binary float_prec float_emax x.
Definition is_double (x : spec_float) : bool := valid_binary double_prec double_emax x.

(** 0.0 and 1.0 as [float]s. *)
Definition float_0_0 : float := S754_zero false.
Definition float_1_0 : float := S754_finite false 8388608 (-23).

(** The literals [0.0] and [1.0] of the source, which are [double]s. *)
Definition double_0_0 : double := S754_zero false.
Definition double_1_0 : double := S754_finite false 4503599627370496 (-52).

(** [a < b] and [a > b] on two numbers of one format: false when either
    side is a NaN. *)
Definition float_lt (a b : spec_float) : bool := SFltb a b.
Definition float_gt (a b : spec_float) : bool := SFltb b a.

(** Rounding a value [m * 2^e] to the nearest number of a format. *)
Definition round_to (prec emax : Z) (x : spec_float) : spec_float :=
  match x with
  | S754_finite s m e => binary_normalize prec emax (cond_Zopp s (Zpos m)) e s
  | _ => x
  end.

(** The implicit conversions [double] to [float] (rounds) and [float] to
    [double] (exact; it is also the promotion applied to a [float] that is
    compared with a [double]). *)
Definition double_to_float (d : double) : float := round_to float_prec float_emax d.
Definition float_to_double (f : float) : double := round_to double_prec double_emax f.

(** The mathematical value of a floating-point number. *)
Inductive xreal :=
| XNaN
| XNegInf
| XFinite (q : Q)
| XPosInf.

Definition finite_value (s : bool) (m : positive) (e : Z) : Q :=
  if 0 <=? e
  then Qmake (cond_Zopp s (Zpos m * 2 ^ e)) 1
  else Qmake (cond_Zopp s (Zpos m)) (Z.to_pos (2 ^ (- e))).

Definition value_of (x : spec_float) : xreal :=
  match x with
  | S754_nan => XNaN
  | S754_infinity s => if s then XNegInf else XPosInf
  | S754_zero _ => XFinite 0
  | S754_finite s m e => XFinite (finite_value s m e)
  end.

(** The order of the extended reals; a NaN is below and above nothing. *)
Definition xlt (a b : xreal) : Prop :=
  match a, b with
  | XNaN, _ | _, XNaN => False
  | XNegInf, XNegInf => False
  | XNegInf, _ => True
  | _, XNegInf => False
  | XPosInf, _ => False
  | XFinite _, XPosInf => True
  | XFinite p, XFinite q => (p < q)%Q
  end.

Definition xle (a b : xreal) : Prop :=
  match a, b with
  | XNaN, _ | _, XNaN => False
  | XNegInf, _ => True
  | _, XNegInf => False
  | _, XPosInf => True
  | XPosInf, _ => False
  | XFinite p, XFinite q => (p <= q)%Q
  end.

(* ===================================================================== *)
(** ** C strings and [string_format] *)
(* ===================================================================== *)

Local Open Scope string_scope.

(** [std::string::c_str] read as a C string: the bytes before the first
    NUL.  [strlen] is the length of that. *)
Fixpoint c_str (s : string) : string :=
  match s with
  | EmptyString => EmptyString
  | String c rest =>
      if Ascii.eqb c zero then EmptyString else String c (c_str rest)
  end.

Definition strlen (s : string) : Z := Z.of_nat (String.length (c_str s)).

Definition hex_digit (d : Z) : ascii :=
  match d with
  | 0 => "0" | 1 => "1" | 2 => "2" | 3 => "3" | 4 => "4" | 5 => "5"
  | 6 => "6" | 7 => "7" | 8 => "8" | 9 => "9" | 10 => "A" | 11 => "B"
  | 12 => "C" | 13 => "D" | 14 => "E" | _ => "F"
  end%char%Z.

(** The digits of [n] in base 16, most significant first, no padding;
    [fuel] bounds the number of digits. *)
Fixpoint hex_digits (fuel : nat) (n : Z) (acc : string) : string :=
  match fuel with
  | O => acc
  | S fuel' =>
      let acc' := String (hex_digit (n mod 16)) acc in
      if (n / 16 =? 0)%Z then acc' else hex_digits fuel' (n / 16) acc'
  end.

(** [printf]'s [%X] on a 32-bit argument: upper-case hexadecimal of its
    unsigned reading. *)
Definition format_X (x : Z) : string := hex_digits 8 (to_uint32 x) EmptyString.

Inductive printf_arg :=
| arg_s (s : string)   (* a [const char *] *)
| arg_X (x : Z).       (* a 32-bit integer *)

(** [std::snprintf] restricted to the directives the source uses. *)
Fixpoint snprintf (format : string) (args : list printf_arg) : string :=
  match format with
  | EmptyString => EmptyString
  | String c rest =>
      if Ascii.eqb c "%"
      then match rest with
           | String d rest' =>
               if Ascii.eqb d "s"
               then match args with
                    | arg_s s :: args' => c_str s ++ snprintf rest' args'
                    | _ => snprintf rest' (tl args)
                    end
               else if Ascii.eqb d "X"
               then match args with
                    | arg_X x :: args' => format_X x ++ snprintf rest' args'
                    | _ => snprintf rest' (tl args)
                    end
               else String d (snprintf rest' args)
           | EmptyString => EmptyString
           end
      else String c (snprintf rest args)
  end.

(** [string_format]: format into a buffer of exactly the needed size and
    return it without the terminating NUL. *)
Definition string_format (format : string) (args : list printf_arg) : string :=
  snprintf (c_str format) args.

(** Reading an upper-case hexadecimal numeral back, to say what [%X]
    printed. *)
Definition hex_digit_value (c : ascii) : option Z :=
  let n := Z.of_nat (nat_of_ascii c) in
  if ((48 <=? n) && (n <=? 57))%Z then Some (n - 48)%Z
  else if ((65 <=? n) && (n <=? 70))%Z then Some (n - 55)%Z
  else None.

Fixpoint hex_value_from (s : string) (acc : Z) : option Z :=
  match s with
  | EmptyString => Some acc
  | String c rest =>
      match hex_digit_value c with
      | Some d => hex_value_from rest (16 * acc + d)%Z
      | None => None
      end
  end.

Definition hex_value (s : string) : option Z :=
  match s with
  | EmptyString => None
  | _ => hex_value_from s 0%Z
  end.

(** Whether a string has an embedded NUL. *)
Fixpoint has_NUL (s : string) : bool :=
  match s with
  | EmptyString => false
  | String c rest => Ascii.eqb c zero || has_NUL rest
  end.

Local Open Scope Z_scope.

(* ===================================================================== *)
(** ** The operating system, seen from the add-on *)
(* ===================================================================== *)

(** The block handed to the receiving window; [lpData] is the C string the
    pointer refers to. *)
Record COPYDATASTRUCT := {
  dwData : Z;
  cbData : Z;
  lpData : string
}.

(** Every OS entry point the source calls, with the arguments it takes.
    The [self] argument of a COM method is the interface pointer it is
    invoked on. *)
Inductive OSCall :=
| CoCreateInstance (rclsid : GUID) (pUnkOuter : ComPtr)
                   (dwClsContext : CLSCTX) (riid : GUID)
| GetDefaultAudioEndpoint (self : ComPtr) (dataFlow : EDataFlow) (role : ERole)
| Activate (self : ComPtr) (iid : GUID) (dwClsCtx : CLSCTX)
           (pActivationParams : ComPtr)
| GetMute (self : ComPtr)
| SetMute (self : ComPtr) (bMute : BOOL) (pguidEventContext : ComPtr)
| GetMasterVolumeLevelScalar (self : ComPtr)
| SetMasterVolumeLevelScalar (self : ComPtr) (fLevel : float)
                             (pguidEventContext : ComPtr)
| FindWindowA (lpClassName : option string) (lpWindowName : string)
| SetLastError (dwErrCode : DWORD)
| SendMessageTimeoutA (hWnd : HWND) (Msg : WindowMessage) (wParam : Z)
                      (lParam : COPYDATASTRUCT) (fuFlags : SendFlags)
                      (uTimeout : UINT) (lpdwResult : ComPtr)
| GetLastError.

(** What each call hands back.  An out-parameter that receives an
    interface pointer comes back next to the result code; an out-parameter
    that receives a scalar is [None] when the OS left it untouched. *)
Definition result (c : OSCall) : Type :=
  match c with
  | CoCreateInstance _ _ _ _ => HRESULT * ComPtr
  | GetDefaultAudioEndpoint _ _ _ => HRESULT * ComPtr
  | Activate _ _ _ _ => HRESULT * ComPtr
  | GetMute _ => HRESULT * option BOOL
  | SetMute _ _ _ => HRESULT
  | GetMasterVolumeLevelScalar _ => HRESULT * option float
  | SetMasterVolumeLevelScalar _ _ _ => HRESULT
  | FindWindowA _ _ => HWND
  | SetLastError _ => unit
  | SendMessageTimeoutA _ _ _ _ _ _ _ => LRESULT
  | GetLastError => DWORD
  end%type.

(** A C++ computation: it returns, throws a [std::string], or calls the OS
    and goes on with the answer. *)
Inductive Prog (R : Type) : Type :=
| Ret (r : R)
| Throw (e : string)
| Act (c : OSCall) (k : result c -> Prog R).

Arguments Ret {R} r.
Arguments Throw {R} e.
Arguments Act {R} c k.

Fixpoint Prog_bind {A B : Type} (p : Prog A) (f : A -> Prog B) : Prog B :=
  match p with
  | Ret a => f a
  | Throw e => Throw e
  | Act c k => Act c (fun x => Prog_bind (k x) f)
  end.

#[global] Instance Monad_Prog : Monad Prog :=
  {| ret := @Ret; bind := @Prog_bind |}.

Definition call (c : OSCall) : Prog (result c) := Act c Ret.

(** [try { p } catch (std::string e) { handler e }]. *)
Fixpoint try_catch {R : Type} (p : Prog R) (handler : string -> Prog R) : Prog R :=
  match p with
  | Ret r => Ret r
  | Throw e => handler e
  | Act c k => Act c (fun x => try_catch (k x) handler)
  end.

(** An operating system over worlds [W] answers every call and moves to a
    new world. *)
Definition OS (W : Type) : Type := forall c : OSCall, W -> result c * W.

(** One entry of the call log. *)
Record Event := {
  call_of : OSCall;
  answer : result call_of
}.

Inductive Outcome (R : Type) : Type :=
| Returned (r : R)
| Thrown (e : string).

Arguments Returned {R} r.
Arguments Thrown {R} e.

Record Run (W R : Type) := {
  outcome : Outcome R;
  world : W;
  log : list Event
}.

Arguments outcome {W R} _.
Arguments world {W R} _.
Arguments log {W R} _.

Definition logged {W R : Type} (ev : Event) (r : Run W R) : Run W R :=
  {| outcome := outcome r; world := world r; log := ev :: log r |}.

Fixpoint run {W R : Type} (os : OS W) (p : Prog R) (w : W) : Run W R :=
  match p with
  | Ret r => {| outcome := Returned r; world := w; log := [] |}
  | Throw e => {| outcome := Thrown e; world := w; log := [] |}
  | Act c k =>
      let (x, w') := os c w in
      logged {| call_of := c; answer := x |} (run os (k x) w')
  end.

(** The calls of a log, without the answers. *)
Definition calls (l : list Event) : list OSCall := map call_of l.

(* ===================================================================== *)
(** ** [checkErrors] and [class VolumeControl] *)
(* ===================================================================== *)

Definition checkErrors (hr : HRESULT) (error_message : string) : Prog unit :=
  if FAILED hr
  then Throw (string_format "%s (0x%X)" [arg_s error_message; arg_X hr])
  else Ret tt.

Module VolumeControl.

(** The object holds the endpoint's volume interface, acquired once. *)
Record t := { device : ComPtr }.

(** The constructor.  Each [ComPtr] starts out null and is written by the
    call that receives its address. *)
Definition VolumeControl : Prog t :=
  r1 <- call (CoCreateInstance uuidof_MMDeviceEnumerator NULL
                               CLSCTX_INPROC_SERVER uuidof_IMMDeviceEnumerator) ;;
  let deviceEnumerator := snd r1 in
  checkErrors (fst r1)
    "Error when trying to get a handle to MMDeviceEnumerator device enumerator" ;;
  r2 <- call (GetDefaultAudioEndpoint deviceEnumerator eRender eConsole) ;;
  let defaultDevice := snd r2 in
  checkErrors (fst r2)
    "Error when trying to get a handle to the default audio enpoint" ;;
  r3 <- call (Activate defaultDevice uuidof_IAudioEndpointVolume
                       CLSCTX_INPROC_SERVER NULL) ;;
  checkErrors (fst r3)
    "Error when trying to get a handle to the volume endpoint" ;;
  ret {| device := snd r3 |}.

Definition isMuted (this : t) : Prog BOOL :=
  let muted := FALSE in
  r <- call (GetMute (device this)) ;;
  let muted := match snd r with Some b => b | None => muted end in
  checkErrors (fst r) "getting muted state" ;;
  ret muted.

Definition setMuted (this : t) (muted : BOOL) : Prog unit :=
  hr <- call (SetMute (device this) muted NULL) ;;
  checkErrors hr "setting mute".

Definition getVolume (this : t) : Prog float :=
  let currentVolume := float_0_0 in
  r <- call (GetMasterVolumeLevelScalar (device this)) ;;
  let currentVolume := match snd r with Some v => v | None => currentVolume end in
  checkErrors (fst r) "getting volume" ;;
  ret currentVolume.

Definition setVolume (this : t) (volume : float) : Prog unit :=
  if float_lt (float_to_double volume) double_0_0
     || float_gt (float_to_double volume) double_1_0
  then Throw "Volume needs to be between 0.0 and 1.0 inclusive"
  else
    hr <- call (SetMasterVolumeLevelScalar (device this) volume NULL) ;;
    checkErrors hr "setting volume".

End VolumeControl.

(* ===================================================================== *)
(** ** The script host (V8 through Nan) *)
(* ===================================================================== *)

(** The host's values and the conversions the source asks of it.  Each
    conversion yields a [Maybe]: [None] is the empty one, on which
    [ToChecked] / [ToLocalChecked] abort the process.  [To_String] is
    [Nan::To<v8::String>] followed by [Nan::Utf8String]: the bytes of the
    string, embedded NULs included. *)
Class V8 := {
  Value : Type;
  undefined : Value;
  To_double : Value -> option double;
  To_bool : Value -> option bool;
  To_String : Value -> option string
}.

Module VolumeControlWrapper.

(** The native object wrapped by the script object. *)
Record t := { device : VolumeControl.t }.

Section Host.
Context {host : V8}.

(** What a callback can hand to [info.GetReturnValue().Set]: nothing
    (the script sees [undefined]), a [bool], a [double], a 32-bit
    integer, or the receiver [info.This()] with a native object
    wrapped in it.  The overload is chosen by the C++ type of the
    argument: [float] widens to [double], and [BOOL], being [int],
    selects the integer one. *)
Inductive ReturnValue :=
| rv_undefined
| rv_bool (b : bool)
| rv_double (d : double)
| rv_int32 (i : Z)
| rv_This (wrapped : t).

(** How a callback ends: normally, with a pending script exception
    ([Nan::ThrowError]), or by aborting the process. *)
Inductive Completion :=
| Completed (rv : ReturnValue)
| ThrowError (msg : string)
| Aborted.

Record FunctionCallbackInfo := {
  args : list Value;
  IsConstructCall : bool;
  (** [Nan::ObjectWrap::Unwrap (info.Holder())]: the native object in
      the holder, if it has one. *)
  Holder : option t
}.

Definition Length (info : FunctionCallbackInfo) : Z :=
  Z.of_nat (List.length (args info)).

(** [info[i]]: [undefined] past the end. *)
Definition arg (info : FunctionCallbackInfo) (i : nat) : Value :=
  nth i (args info) undefined.

Definition NAN_METHOD : Type := FunctionCallbackInfo -> Prog Completion.

Definition New : NAN_METHOD := fun info =>
  if IsConstructCall info
  then
    (* std::cout << "Constructing new object": console output only *)
    try_catch
      (dev <- VolumeControl.VolumeControl ;;
       let obj := {| device := dev |} in
       (* std::cout << "Constructed new object": console output only *)
       ret (Completed (rv_This obj)))
      (fun e => ret (ThrowError e))
  else
    ret (ThrowError "The constructor cannot be called as a function.").

Definition GetVolume : NAN_METHOD := fun info =>
  match Holder info with
  | None => ret Aborted
  | Some obj =>
      try_catch
        (v <- VolumeControl.getVolume (device obj) ;;
         ret (Completed (rv_double (float_to_double v))))
        (fun e => ret (ThrowError e))
  end.

Definition SetVolume : NAN_METHOD := fun info =>
  if negb (Length info =? 1)
  then ret (ThrowError "Exactly one number parameter is required.")
  else
    match To_double (arg info 0) with
    | None => ret Aborted
    | Some volume =>
        match Holder info with
        | None => ret Aborted
        | Some obj =>
            try_catch
              (VolumeControl.setVolume (device obj) (double_to_float volume) ;;
               ret (Completed rv_undefined))
              (fun e => ret (ThrowError e))
        end
    end.

Definition IsMuted : NAN_METHOD := fun info =>
  match Holder info with
  | None => ret Aborted
  | Some obj =>
      try_catch
        (m <- VolumeControl.isMuted (device obj) ;;
         ret (Completed (rv_int32 m)))
        (fun e => ret (ThrowError e))
  end.

Definition SetMuted : NAN_METHOD := fun info =>
  if negb (Length info =? 1)
  then ret (ThrowError "Exactly one boolean parameter is required.")
  else
    match To_bool (arg info 0) with
    | None => ret Aborted
    | Some muted =>
        match Holder info with
        | None => ret Aborted
        | Some obj =>
            try_catch
              (VolumeControl.setMuted (device obj) (BOOL_of_bool muted) ;;
               ret (Completed rv_undefined))
              (fun e => ret (ThrowError e))
        end
    end.

Definition ExecTranslatorMacro : NAN_METHOD := fun info =>
  if negb (Length info =? 1)
  then ret (ThrowError "Exactly one string parameter is required.")
  else
    let CopyDataID := 24 in
    let widowName := "Translator CopyData Target" in
    hwnd <- call (FindWindowA None (c_str widowName)) ;;
    if hwnd =? 0
    then ret (ThrowError
                "Could not find running Translator instance to send message to")
    else
      match To_String (arg info 0) with
      | None => ret Aborted
      | Some v8MacroName =>
          let wstrMacroName := "Macro: " in
          let wstrMacroName := wstrMacroName ++ c_str v8MacroName in
          let lpszMacroName := c_str wstrMacroName in
          let cds := {| dwData := CopyDataID;
                        cbData := strlen lpszMacroName;
                        lpData := lpszMacroName |} in
          call (SetLastError ERROR_SUCCESS) ;;
          let lpdwResult := NULL in
          r <- call (SendMessageTimeoutA hwnd WM_COPYDATA 0 cds
                                         SMTO_ABORTIFHUNG 5000 lpdwResult) ;;
          e <- call GetLastError ;;
          let hr := HRESULT_FROM_WIN32 e in
          if (r =? 0) && FAILED hr
          then
            ret (ThrowError
                   (string_format "%s (0x%X)"
                      [arg_s "Failed to execute Translator Macro"; arg_X hr]))
          else ret (Completed rv_undefined)
      end.

(** The function template [Init] builds. *)
Record FunctionTemplate := {
  callback : NAN_METHOD;
  ClassName : string;
  InternalFieldCount : Z;
  PrototypeTemplate : list (string * NAN_METHOD)
}.

(** Setting a property: a later definition of a name replaces an
    earlier one. *)
Definition set_property {A : Type} (name : string) (a : A)
           (o : list (string * A)) : list (string * A) :=
  (filter (fun p => negb (String.eqb (fst p) name)) o ++ [(name, a)])%list.

Definition get_property {A : Type} (name : string)
           (o : list (string * A)) : option A :=
  option_map snd (find (fun p => String.eqb (fst p) name) o).

Definition SetPrototypeMethod (tpl : FunctionTemplate) (name : string)
           (m : NAN_METHOD) : FunctionTemplate :=
  {| callback := callback tpl;
     ClassName := ClassName tpl;
     InternalFieldCount := InternalFieldCount tpl;
     PrototypeTemplate := set_property name m (PrototypeTemplate tpl) |}.

(** [Init target]: the exports after the class has been registered. *)
Definition Init (target : list (string * FunctionTemplate))
  : list (string * FunctionTemplate) :=
  let tpl := {| callback := New; ClassName := EmptyString;
                InternalFieldCount := 0; PrototypeTemplate := [] |} in
  let tpl := {| callback := callback tpl; ClassName := "VolumeControl";
                InternalFieldCount := InternalFieldCount tpl;
                PrototypeTemplate := PrototypeTemplate tpl |} in
  let tpl := {| callback := callback tpl; ClassName := ClassName tpl;
                InternalFieldCount := 1;
                PrototypeTemplate := PrototypeTemplate tpl |} in
  let tpl := SetPrototypeMethod tpl "getVolume" GetVolume in
  let tpl := SetPrototypeMethod tpl "setVolume" SetVolume in
  let tpl := SetPrototypeMethod tpl "isMuted" IsMuted in
  let tpl := SetPrototypeMethod tpl "setMuted" SetMuted in
  let tpl := SetPrototypeMethod tpl "execTranslatorMacro" ExecTranslatorMacro in
  set_property "VolumeControl" tpl target.

End Host.

End VolumeControlWrapper.

(* ===================================================================== *)
(** ** Selecting answers from a call log *)
(* ===================================================================== *)

(** The value a [SendMessageTimeoutA] entry returned. *)
Definition send_answer (ev : Event) : option LRESULT :=
  match call_of ev as c return result c -> option LRESULT with
  | SendMessageTimeoutA _ _ _ _ _ _ _ => fun r => Some r
  | _ => fun _ => None
  end (answer ev).

(** The code a [GetLastError] entry returned. *)
Definition last_error_answer (ev : Event) : option DWORD :=
  match call_of ev as c return result c -> option DWORD with
  | GetLastError => fun r => Some r
  | _ => fun _ => None
  end (answer ev).

(** The window a [FindWindowA] entry returned. *)
Definition find_answer (ev : Event) : option HWND :=
  match call_of ev as c return result c -> option HWND with
  | FindWindowA _ _ => fun r => Some r
  | _ => fun _ => None
  end (answer ev).

(** The first answer of a kind in a log. *)
Fixpoint first_answer {A : Type} (pick : Event -> option A) (l : list Event)
  : option A :=
  match l with
  | [] => None
  | ev :: l' =>
      match pick ev with
      | Some a => Some a
      | None => first_answer pick l'
      end
  end.

Definition is_send (c : OSCall) : bool :=
  match c with
  | SendMessageTimeoutA _ _ _ _ _ _ _ => true
  | _ => false
  end.

Definition is_find (c : OSCall) : bool :=
  match c with
  | FindWindowA _ _ => true
  | _ => false
  end.

(* ===================================================================== *)
(** ** What the add-on expects of an audio endpoint *)
(* ===================================================================== *)

(** An OS whose endpoint keeps what it is given: a level that was set is
    the level read back, up to the endpoint's own tolerance [tol]; a mute
    flag that was set is the flag read back; and setting the mute flag
    does not change what reading the level answers. *)
Class LawfulEndpoint {W : Type} (os : OS W) (tol : float -> float -> Prop) : Prop := {
  volume_stored :
    forall (self ctx : ComPtr) (v : float) (w : W),
      FAILED (fst (os (SetMasterVolumeLevelScalar self v ctx) w)) = false ->
      let w' := snd (os (SetMasterVolumeLevelScalar self v ctx) w) in
      FAILED (fst (fst (os (GetMasterVolumeLevelScalar self) w'))) = false ->
      exists v', snd (fst (os (GetMasterVolumeLevelScalar self) w')) = Some v'
                 /\ tol v v';
  mute_stored :
    forall (self ctx : ComPtr) (b : BOOL) (w : W),
      FAILED (fst (os (SetMute self b ctx) w)) = false ->
      let w' := snd (os (SetMute self b ctx) w) in
      FAILED (fst (fst (os (GetMute self) w'))) = false ->
      snd (fst (os (GetMute self) w')) = Some b;
  mute_keeps_volume :
    forall (self ctx : ComPtr) (b : BOOL) (w : W),
      fst (os (GetMasterVolumeLevelScalar self) (snd (os (SetMute self b ctx) w)))
      = fst (os (GetMasterVolumeLevelScalar self) w)
}.

(* ===================================================================== *)
(** ** A stub operating system and a stub host *)
(* ===================================================================== *)

(** An in-memory stand-in for the audio and windowing subsystems: it keeps
    one volume level and one mute flag, a table of top-level windows by
    title, the thread's last-error code and the blocks delivered to
    windows.  The result codes it answers with are part of the world, so a
    test can make any step fail. *)
Module Stub.

Record World := {
  enumerator : HRESULT * ComPtr;
  default_endpoint : HRESULT * ComPtr;
  activation : HRESULT * ComPtr;
  endpoint_status : HRESULT;
  volume : float;
  muted : BOOL;
  windows : list (string * HWND);
  last_error : DWORD;
  send_reply : LRESULT * option DWORD;
  delivered : list (HWND * COPYDATASTRUCT)
}.

Definition set_volume (v : float) (w : World) : World :=
  {| enumerator := enumerator w; default_endpoint := default_endpoint w;
     activation := activation w; endpoint_status := endpoint_status w;
     volume := v; muted := muted w; windows := windows w;
     last_error := last_error w; send_reply := send_reply w;
     delivered := delivered w |}.

Definition set_muted (b : BOOL) (w : World) : World :=
  {| enumerator := enumerator w; default_endpoint := default_endpoint w;
     activation := activation w; endpoint_status := endpoint_status w;
     volume := volume w; muted := b; windows := windows w;
     last_error := last_error w; send_reply := send_reply w;
     delivered := delivered w |}.

Definition set_last_error (e : DWORD) (w : World) : World :=
  {| enumerator := enumerator w; default_endpoint := default_endpoint w;
     activation := activation w; endpoint_status := endpoint_status w;
     volume := volume w; muted := muted w; windows := windows w;
     last_error := e; send_reply := send_reply w;
     delivered := delivered w |}.

Definition deliver (h : HWND) (cds : COPYDATASTRUCT) (w : World) : World :=
  {| enumerator := enumerator w; default_endpoint := default_endpoint w;
     activation := activation w; endpoint_status := endpoint_status w;
     volume := volume w; muted := muted w; windows := windows w;
     last_error := last_error w; send_reply := send_reply w;
     delivered := (delivered w ++ [(h, cds)])%list |}.

Definition set_windows (l : list (string * HWND)) (w : World) : World :=
  {| enumerator := enumerator w; default_endpoint := default_endpoint w;
     activation := activation w; endpoint_status := endpoint_status w;
     volume := volume w; muted := muted w; windows := l;
     last_error := last_error w; send_reply := send_reply w;
     delivered := delivered w |}.

Definition set_send_reply (r : LRESULT * option DWORD) (w : World) : World :=
  {| enumerator := enumerator w; default_endpoint := default_endpoint w;
     activation := activation w; endpoint_status := endpoint_status w;
     volume := volume w; muted := muted w; windows := windows w;
     last_error := last_error w; send_reply := r;
     delivered := delivered w |}.

(** The window whose title is exactly [title], or the null handle. *)
Definition find_window (title : string) (w : World) : HWND :=
  match find (fun p => String.eqb (fst p) title) (windows w) with
  | Some p => snd p
  | None => NULL
  end.

Definition os : OS World := fun c =>
  match c as c0 return World -> result c0 * World with
  | CoCreateInstance _ _ _ _ => fun w => (enumerator w, w)
  | GetDefaultAudioEndpoint _ _ _ => fun w => (default_endpoint w, w)
  | Activate _ _ _ _ => fun w => (activation w, w)
  | GetMute _ => fun w =>
      if FAILED (endpoint_status w)
      then ((endpoint_status w, None), w)
      else ((endpoint_status w, Some (muted w)), w)
  | SetMute _ b _ => fun w =>
      if FAILED (endpoint_status w)
      then (endpoint_status w, w)
      else (endpoint_status w, set_muted b w)
  | GetMasterVolumeLevelScalar _ => fun w =>
      if FAILED (endpoint_status w)
      then ((endpoint_status w, None), w)
      else ((endpoint_status w, Some (volume w)), w)
  | SetMasterVolumeLevelScalar _ v _ => fun w =>
      if FAILED (endpoint_status w)
      then (endpoint_status w, w)
      else (endpoint_status w, set_volume v w)
  | FindWindowA _ title => fun w => (find_window title w, w)
  | SetLastError e => fun w => (tt, set_last_error e w)
  | SendMessageTimeoutA h _ _ cds _ _ _ => fun w =>
      let w1 := match snd (send_reply w) with
                | Some e => set_last_error e w
                | None => w
                end in
      if fst (send_reply w) =? 0
      then (fst (send_reply w), w1)
      else (fst (send_reply w), deliver h cds w1)
  | GetLastError => fun w => (last_error w, w)
  end.

(** A healthy machine: every step succeeds, the volume is 0.25, nothing
    is muted and the translator's window is open. *)
Definition healthy : World :=
  {| enumerator := (0, 4096); default_endpoint := (0, 8192);
     activation := (0, 12288); endpoint_status := 0;
     volume := S754_finite false 8388608 (-25); muted := FALSE;
     windows := [("Translator CopyData Target", 66)];
     last_error := 0; send_reply := (1, None); delivered := [] |}.

(** The same machine with no default rendering endpoint: the enumerator
    answers "element not found". *)
Definition no_default_device : World :=
  {| enumerator := enumerator healthy;
     default_endpoint := (-2147023728, NULL);
     activation := activation healthy;
     endpoint_status := endpoint_status healthy;
     volume := volume healthy; muted := muted healthy;
     windows := windows healthy; last_error := last_error healthy;
     send_reply := send_reply healthy; delivered := delivered healthy |}.

(** The same machine with a translator that does not answer in time: the
    send returns 0 and sets the last-error code to 1460. *)
Definition translator_hung : World := set_send_reply (0, Some 1460) healthy.

(** The same machine with the translator closed. *)
Definition translator_closed : World :=
  set_windows [("Untitled - Notepad", 77)] healthy.

(** A host whose values are already typed; a value converts only to its
    own type. *)
Inductive value :=
| js_undefined
| js_number (d : double)
| js_boolean (b : bool)
| js_string (s : string).

Definition host : V8 :=
  {| Value := value;
     undefined := js_undefined;
     To_double := fun v => match v with js_number d => Some d | _ => None end;
     To_bool := fun v => match v with js_boolean b => Some b | _ => None end;
     To_String := fun v => match v with js_string s => Some s | _ => None end |}.

(** A method call [holder.method (args)] on this host. *)
Definition method_call (holder : option VolumeControlWrapper.t)
           (args : list value)
  : @VolumeControlWrapper.FunctionCallbackInfo host :=
  @VolumeControlWrapper.Build_FunctionCallbackInfo host args false holder.

(** The object a successful construction on the healthy machine wraps. *)
Definition accessor : VolumeControlWrapper.t :=
  {| VolumeControlWrapper.device := {| VolumeControl.device := 12288 |} |}.

End Stub.


(* ===================================================================== *)
(** ** Names for what the macro trigger says and sends *)
(* ===================================================================== *)

Local Open Scope string_scope.

(** The lookup of the translator's window: any class, the fixed title. *)
Definition find_translator : OSCall :=
  FindWindowA None "Translator CopyData Target".

(** The block carrying the bytes [payload]. *)
Definition copy_data (payload : string) : COPYDATASTRUCT :=
  {| dwData := 24;
     cbData := Z.of_nat (String.length payload);
     lpData := payload |}.

(** The one send: the block as [WM_COPYDATA], abort if the receiver is
    hung, wait at most 5000. *)
Definition send_copy_data (hwnd : HWND) (payload : string) : OSCall :=
  SendMessageTimeoutA hwnd WM_COPYDATA 0 (copy_data payload)
                      SMTO_ABORTIFHUNG 5000 NULL.

(** The three OS steps of the constructor, the second and third on the
    interface pointer the step before handed back. *)
Definition create_enumerator : OSCall :=
  CoCreateInstance uuidof_MMDeviceEnumerator NULL CLSCTX_INPROC_SERVER
                   uuidof_IMMDeviceEnumerator.

Definition default_render_endpoint (deviceEnumerator : ComPtr) : OSCall :=
  GetDefaultAudioEndpoint deviceEnumerator eRender eConsole.

Definition activate_volume (defaultDevice : ComPtr) : OSCall :=
  Activate defaultDevice uuidof_IAudioEndpointVolume CLSCTX_INPROC_SERVER NULL.

(** The messages of the three construction failures. *)
Definition no_enumerator (hr : HRESULT) : string :=
  "Error when trying to get a handle to MMDeviceEnumerator device enumerator"
  ++ " (0x" ++ format_X hr ++ ")".

Definition no_default_endpoint (hr : HRESULT) : string :=
  "Error when trying to get a handle to the default audio enpoint"
  ++ " (0x" ++ format_X hr ++ ")".

Definition no_activation (hr : HRESULT) : string :=
  "Error when trying to get a handle to the volume endpoint"
  ++ " (0x" ++ format_X hr ++ ")".

(** The message of a failed delivery, for the result code [hr]. *)
Definition delivery_failed (hr : HRESULT) : string :=
  "Failed to execute Translator Macro (0x" ++ format_X hr ++ ")".

(** The message when the translator's window is not there. *)
Definition not_running : string :=
  "Could not find running Translator instance to send message to".



Local Open Scope Z_scope.


(* ===================================================================== *)
(** ** Vocabulary for the properties beyond the claims *)
(* ===================================================================== *)

Local Open Scope string_scope.

(** Two extended reals are the same number. *)
Definition xeq (a b : xreal) : Prop :=
  match a, b with
  | XNaN, XNaN => True
  | XNegInf, XNegInf => True
  | XPosInf, XPosInf => True
  | XFinite p, XFinite q => (p == q)%Q
  | _, _ => False
  end.

(** A format without any conversion directive. *)
Fixpoint no_percent (s : string) : bool :=
  match s with
  | EmptyString => true
  | String c rest => negb (Ascii.eqb c "%") && no_percent rest
  end.

(** The interface pointer a COM method call is made on. *)
Definition self_of (c : OSCall) : option ComPtr :=
  match c with
  | GetDefaultAudioEndpoint self _ _ => Some self
  | Activate self _ _ _ => Some self
  | GetMute self => Some self
  | SetMute self _ _ => Some self
  | GetMasterVolumeLevelScalar self => Some self
  | SetMasterVolumeLevelScalar self _ _ => Some self
  | _ => None
  end.

(** The calls of the windowing side: window lookup, message send and the
    thread's last-error code. *)
Definition is_windowing (c : OSCall) : bool :=
  match c with
  | FindWindowA _ _ => true
  | SetLastError _ => true
  | SendMessageTimeoutA _ _ _ _ _ _ _ => true
  | GetLastError => true
  | _ => false
  end.

(** A callback ended with the error of the OS step [what] that failed
    with [hr]: the step's name, then the code as eight hexadecimal digits
    that read back as the code. *)
Definition reports {host : V8} (what : string) (hr : HRESULT)
           (o : Outcome VolumeControlWrapper.Completion) : Prop :=
  exists digits : string,
    o = Returned (VolumeControlWrapper.ThrowError
                    (what ++ " (0x" ++ digits ++ ")"))
    /\ String.length digits = 8%nat
    /\ hex_value digits = Some (to_uint32 hr).

(** What every send of the macro trigger looks like: to the window the
    lookup found, never the null handle, one [WM_COPYDATA] block with
    identifier 24 whose bytes start with "Macro: ", have no NUL and are
    counted by [cbData], with the abort-if-hung flag and timeout 5000. *)
Definition well_formed_send (found : HWND) (c : OSCall) : Prop :=
  match c with
  | SendMessageTimeoutA hWnd Msg wParam cds fuFlags uTimeout lpdwResult =>
      hWnd = found /\ hWnd <> NULL
      /\ wParam = 0%Z /\ uTimeout = 5000%Z /\ lpdwResult = NULL
      /\ dwData cds = 24%Z
      /\ (exists rest : string, lpData cds = "Macro: " ++ rest)
      /\ has_NUL (lpData cds) = false
      /\ cbData cds = Z.of_nat (String.length (lpData cds))
  | _ => True
  end.

(** An OS whose last-error code is a cell of the world: [GetLastError]
    reads it and [SetLastError] writes it. *)
Class LastErrorCell {W : Type} (os : OS W) (cell : W -> DWORD) : Prop := {
  GetLastError_reads : forall w : W, fst (os GetLastError w) = cell w;
  SetLastError_writes :
    forall (e : DWORD) (w : W), cell (snd (os (SetLastError e) w)) = e
}.

Local Open Scope Z_scope.


(* ===================================================================== *)
(** * Properties *)
(* ===================================================================== *)

Local Open Scope string_scope.
Local Open Scope Z_scope.

(** ** The range check on binary32 numbers *)

Lemma digits2_pos_bounds (m : positive) :
  2 ^ (Zpos (digits2_pos m) - 1) <= Zpos m < 2 ^ Zpos (digits2_pos m).
Proof.
  induction m as [p IH | p IH | ]; cbn [digits2_pos].
  - rewrite Pos2Z.inj_succ.
    replace (Z.succ (Zpos (digits2_pos p)) - 1)
      with (Z.succ (Zpos (digits2_pos p) - 1)) by lia.
    rewrite !Z.pow_succ_r by lia. lia.
  - rewrite Pos2Z.inj_succ.
    replace (Z.succ (Zpos (digits2_pos p)) - 1)
      with (Z.succ (Zpos (digits2_pos p) - 1)) by lia.
    rewrite !Z.pow_succ_r by lia. lia.
  - cbn. lia.
Qed.

(** A binary32 mantissa has at most 24 bits, and exactly 24 above the
    smallest exponent. *)
Lemma float_canonical (m : positive) (e : Z) :
  bounded float_prec float_emax m e = true ->
  1 <= Zpos (digits2_pos m) <= 24
  /\ (-149 < e -> Zpos (digits2_pos m) = 24)
  /\ -149 <= e <= 104.
Proof.
  unfold bounded, canonical_mantissa, fexp, emin, float_prec, float_emax.
  intros H. apply andb_true_iff in H. destruct H as [Hc Hb].
  apply Z.eqb_eq in Hc. apply Z.leb_le in Hb. lia.
Qed.

Lemma float_mantissa_bounds (m : positive) (e : Z) :
  bounded float_prec float_emax m e = true ->
  Zpos m < 2 ^ 24 /\ (-149 < e -> 2 ^ 23 <= Zpos m) /\ -149 <= e <= 104.
Proof.
  intros H. destruct (float_canonical m e H) as (Hd & Hfull & He).
  pose proof (digits2_pos_bounds m) as [Hlo Hhi].
  split; [| split].
  - apply Z.lt_le_trans with (1 := Hhi).
    apply Z.pow_le_mono_r; lia.
  - intros He'. rewrite (Hfull He') in Hlo. exact Hlo.
  - exact He.
Qed.

Lemma finite_value_sign (s : bool) (m : positive) (e : Z) :
  (finite_value s m e < 0)%Q <-> s = true.
Proof.
  unfold finite_value, Qlt.
  destruct s, (Z.leb_spec 0 e) as [He | He]; cbn [Qnum Qden cond_Zopp];
    try (pose proof (Z.pow_pos_nonneg 2 e ltac:(lia) He) as Hp);
    split; intros H; try reflexivity; try discriminate; nia.
Qed.

Lemma finite_value_gt_1 (m : positive) (e : Z) :
  bounded float_prec float_emax m e = true ->
  (1 < finite_value false m e)%Q <-> (-23 < e \/ (e = -23 /\ 2 ^ 23 < Zpos m)).
Proof.
  intros Hv. apply float_mantissa_bounds in Hv.
  destruct Hv as (Hhi & Hlo & He).
  unfold finite_value, Qlt.
  destruct (Z.leb_spec 0 e) as [He' | He']; cbn [Qnum Qden cond_Zopp].
  - pose proof (Z.pow_pos_nonneg 2 e ltac:(lia) He') as Hp.
    specialize (Hlo ltac:(lia)).
    split; intros H; [lia | nia].
  - assert (Hp : 0 < 2 ^ (- e)) by (apply Z.pow_pos_nonneg; lia).
    rewrite Z2Pos.id by exact Hp.
    destruct (Z.lt_trichotomy e (-23)) as [E | [E | E]].
    + assert (2 ^ 24 <= 2 ^ (- e)) by (apply Z.pow_le_mono_r; lia).
      split; intros H'; lia.
    + subst e. change (- -23) with 23. split; intros H'; lia.
    + assert (2 ^ (- e) <= 2 ^ 22) by (apply Z.pow_le_mono_r; lia).
      specialize (Hlo ltac:(lia)).
      split; intros H'; lia.
Qed.

(** *** Promotion to binary64 is exact *)

Lemma digits2_pos_iter_xO (m k : positive) :
  digits2_pos (Pos.iter xO m k) = (digits2_pos m + k)%positive.
Proof.
  induction k as [| k IH] using Pos.peano_ind.
  - cbn. lia.
  - rewrite Pos.iter_succ. cbn [digits2_pos]. rewrite IH. lia.
Qed.

Lemma Zpos_iter_xO (m k : positive) :
  Zpos (Pos.iter xO m k) = Zpos m * 2 ^ Zpos k.
Proof.
  induction k as [| k IH] using Pos.peano_ind.
  - cbn. lia.
  - rewrite Pos.iter_succ, Pos2Z.inj_succ, Z.pow_succ_r by lia.
    rewrite Pos2Z.inj_xO, IH. ring.
Qed.

(** A binary64 mantissa of exactly 53 bits whose exponent is in range is
    left as it is by rounding. *)
Lemma binary_round_aux_exact (s : bool) (mz : positive) (ez : Z) :
  Zpos (digits2_pos mz) = 53 -> -1074 <= ez <= 971 ->
  binary_round_aux double_prec double_emax s (Zpos mz) ez loc_Exact
  = S754_finite s mz ez.
Proof.
  intros Hd He.
  unfold binary_round_aux, shr_fexp.
  cbn [Zdigits2 shr_record_of_loc].
  assert (Hf : fexp double_prec double_emax (Zpos (digits2_pos mz) + ez) - ez = 0).
  { unfold fexp, emin, double_prec, double_emax. lia. }
  rewrite Hf. cbn [shr shr_m loc_of_shr_record round_nearest_even].
  cbn [Zdigits2 shr_record_of_loc].
  rewrite Hf. cbn [shr shr_m].
  unfold double_prec, double_emax.
  destruct (Z.leb_spec ez (1024 - 53)); [reflexivity | lia].
Qed.

(** Promoting a binary32 number shifts its mantissa up to 53 bits and
    lowers its exponent by as much. *)
Lemma float_to_double_finite (s : bool) (m : positive) (e : Z) :
  bounded float_prec float_emax m e = true ->
  let k := Z.to_pos (53 - Zpos (digits2_pos m)) in
  float_to_double (S754_finite s m e)
  = S754_finite s (Pos.iter xO m k) (e - Zpos k).
Proof.
  intros Hv k.
  destruct (float_canonical m e Hv) as (Hd & _ & He).
  assert (Hk : Zpos k = 53 - Zpos (digits2_pos m))
    by (unfold k; rewrite Z2Pos.id; lia).
  unfold float_to_double, round_to, binary_normalize.
  assert (Hround : binary_round double_prec double_emax s m e
                   = S754_finite s (Pos.iter xO m k) (e - Zpos k)).
  { unfold binary_round, shl_align.
    assert (Hf : fexp double_prec double_emax (Zpos (digits2_pos m) + e) - e
                 = Zneg k).
    { unfold fexp, emin, double_prec, double_emax.
      rewrite <- Pos2Z.opp_pos, Hk. lia. }
    rewrite Hf.
    assert (Hf' : fexp double_prec double_emax (Zpos (digits2_pos m) + e)
                  = e - Zpos k).
    { unfold fexp, emin, double_prec, double_emax. rewrite Hk. lia. }
    rewrite Hf'.
    apply binary_round_aux_exact.
    - rewrite digits2_pos_iter_xO, Pos2Z.inj_add. lia.
    - lia. }
  destruct s; cbn [cond_Zopp Z.opp]; exact Hround.
Qed.

(** *** The two comparisons of the range check *)

(** [volume < 0.0], computed on the promoted [volume], holds exactly when
    the value of [volume] is below zero. *)
Lemma promoted_lt_0_iff (v : float) :
  is_float v = true ->
  float_lt (float_to_double v) double_0_0 = true
  <-> xlt (value_of v) (XFinite 0).
Proof.
  unfold is_float.
  destruct v as [s | s | | s m e]; cbn [valid_binary]; intros Hv.
  - cbn. split; [discriminate | intros H; destruct (Qlt_irrefl 0 H)].
  - destruct s; cbn; intuition discriminate.
  - cbn. intuition discriminate.
  - rewrite (float_to_double_finite s m e Hv).
    unfold float_lt, double_0_0, SFltb, SFcompare, value_of, xlt.
    rewrite finite_value_sign. destruct s; intuition discriminate.
Qed.

Lemma is_Lt_iff (c : comparison) :
  match Pos.switch_Eq Eq c with Lt => true | _ => false end = true <-> c = Lt.
Proof. destruct c; cbn; intuition discriminate. Qed.

(** [volume > 1.0], computed on the promoted [volume], holds exactly when
    the value of [volume] is above one. *)
Lemma promoted_gt_1_iff (v : float) :
  is_float v = true ->
  float_gt (float_to_double v) double_1_0 = true
  <-> xlt (XFinite 1) (value_of v).
Proof.
  unfold is_float.
  destruct v as [s | s | | s m e]; cbn [valid_binary]; intros Hv.
  - cbn. unfold Qlt; cbn. split; [discriminate | lia].
  - destruct s; cbn; intuition discriminate.
  - cbn. intuition discriminate.
  - rewrite (float_to_double_finite s m e Hv).
    unfold float_gt, double_1_0, SFltb, SFcompare, value_of, xlt.
    destruct s.
    + split; [discriminate |].
      intros H.
      assert (H0 : (finite_value true m e < 0)%Q)
        by (apply finite_value_sign; reflexivity).
      exfalso. apply (Qlt_irrefl 1). apply Qlt_trans with (1 := H).
      apply Qlt_trans with (1 := H0). reflexivity.
    + rewrite (finite_value_gt_1 m e Hv).
      destruct (float_canonical m e Hv) as (Hd & Hfull & He).
      set (k := Z.to_pos (53 - Zpos (digits2_pos m))).
      assert (Hk : Zpos k = 53 - Zpos (digits2_pos m))
        by (unfold k; rewrite Z2Pos.id; lia).
      destruct (Z.compare_spec (-52) (e - Zpos k)) as [E | E | E].
      * assert (Hk29 : Zpos k = 29) by lia.
        rewrite Pos.compare_cont_spec. cbn [Pos.switch_Eq].
        pose proof (Zpos_iter_xO m k) as Hm. rewrite Hk29 in Hm.
        change (2 ^ 29) with 536870912 in Hm.
        set (mz := Pos.iter xO m k) in *. clearbody mz.
        rewrite is_Lt_iff, Pos.compare_lt_iff. lia.
      * split; intros H; [lia | reflexivity].
      * split; intros H; [discriminate | lia].
Qed.

Lemma xle_not_xlt (a b : xreal) : xle a b -> ~ xlt b a.
Proof.
  destruct a, b; cbn; try tauto.
  intros H H'. exact (Qle_not_lt _ _ H H').
Qed.

(** ** Error messages *)

Lemma string_format_s_X (msg : string) (hr : Z) :
  string_format "%s (0x%X)" [arg_s msg; arg_X hr]
  = c_str msg ++ " (0x" ++ format_X hr ++ ")".
Proof. reflexivity. Qed.

(** ** Running the methods of [VolumeControl] against any OS *)

Section RunVolumeControl.
Context {W : Type} (os : OS W).

Lemma run_checkErrors (hr : HRESULT) (msg : string) (w : W) :
  run os (checkErrors hr msg) w
  = {| outcome := if FAILED hr
                  then Thrown (c_str msg ++ " (0x" ++ format_X hr ++ ")")
                  else Returned tt;
       world := w; log := [] |}.
Proof. unfold checkErrors. destruct (FAILED hr); reflexivity. Qed.

Lemma run_setVolume (this : VolumeControl.t) (v : float) (w : W) :
  run os (VolumeControl.setVolume this v) w
  = if float_lt (float_to_double v) double_0_0
       || float_gt (float_to_double v) double_1_0
    then {| outcome := Thrown "Volume needs to be between 0.0 and 1.0 inclusive";
            world := w; log := [] |}
    else
      let c := SetMasterVolumeLevelScalar (VolumeControl.device this) v NULL in
      {| outcome := if FAILED (fst (os c w))
                    then Thrown ("setting volume (0x" ++ format_X (fst (os c w)) ++ ")")
                    else Returned tt;
         world := snd (os c w);
         log := [{| call_of := c; answer := fst (os c w) |}] |}.
Proof.
  unfold VolumeControl.setVolume.
  destruct (float_lt (float_to_double v) double_0_0
            || float_gt (float_to_double v) double_1_0); [reflexivity |].
  cbn. destruct (os _ w) as [hr w']. cbn.
  rewrite run_checkErrors. reflexivity.
Qed.

Lemma run_getVolume (this : VolumeControl.t) (w : W) :
  let c := GetMasterVolumeLevelScalar (VolumeControl.device this) in
  run os (VolumeControl.getVolume this) w
  = {| outcome := if FAILED (fst (fst (os c w)))
                  then Thrown ("getting volume (0x"
                               ++ format_X (fst (fst (os c w))) ++ ")")
                  else Returned match snd (fst (os c w)) with
                                | Some v => v
                                | None => float_0_0
                                end;
       world := snd (os c w);
       log := [{| call_of := c; answer := fst (os c w) |}] |}.
Proof.
  unfold VolumeControl.getVolume. cbn.
  destruct (os _ w) as [[hr out] w']. cbn.
  unfold checkErrors. destruct (FAILED hr); reflexivity.
Qed.

Lemma run_setMuted (this : VolumeControl.t) (b : BOOL) (w : W) :
  let c := SetMute (VolumeControl.device this) b NULL in
  run os (VolumeControl.setMuted this b) w
  = {| outcome := if FAILED (fst (os c w))
                  then Thrown ("setting mute (0x" ++ format_X (fst (os c w)) ++ ")")
                  else Returned tt;
       world := snd (os c w);
       log := [{| call_of := c; answer := fst (os c w) |}] |}.
Proof.
  unfold VolumeControl.setMuted. cbn.
  destruct (os _ w) as [hr w']. cbn.
  rewrite run_checkErrors. reflexivity.
Qed.

Lemma run_isMuted (this : VolumeControl.t) (w : W) :
  let c := GetMute (VolumeControl.device this) in
  run os (VolumeControl.isMuted this) w
  = {| outcome := if FAILED (fst (fst (os c w)))
                  then Thrown ("getting muted state (0x"
                               ++ format_X (fst (fst (os c w))) ++ ")")
                  else Returned match snd (fst (os c w)) with
                                | Some b => b
                                | None => FALSE
                                end;
       world := snd (os c w);
       log := [{| call_of := c; answer := fst (os c w) |}] |}.
Proof.
  unfold VolumeControl.isMuted. cbn.
  destruct (os _ w) as [[hr out] w']. cbn.
  unfold checkErrors. destruct (FAILED hr); reflexivity.
Qed.

End RunVolumeControl.

(** ** The stub endpoint keeps what it is given *)

Lemma stub_lawful : LawfulEndpoint Stub.os eq.
Proof.
  constructor.
  - intros self ctx v w. cbn.
    destruct (FAILED (Stub.endpoint_status w)) eqn:E; cbn; rewrite E.
    + intros H; discriminate H.
    + cbn. intros _ _. exists v. split; reflexivity.
  - intros self ctx b w. cbn.
    destruct (FAILED (Stub.endpoint_status w)) eqn:E; cbn; rewrite E.
    + intros H; discriminate H.
    + cbn. intros _ _. reflexivity.
  - intros self ctx b w. cbn.
    destruct (FAILED (Stub.endpoint_status w)) eqn:E; cbn; rewrite E; reflexivity.
Qed.

(** ** Range validation of [setVolume] *)

(** C1.  [setVolume v] throws the invalid-argument message exactly when the
    value of [v] is below 0.0 or above 1.0; when it throws that message no
    OS call has been made (the call log is empty and the world is the one
    it started in); and every [v] with [0.0 <= v <= 1.0], both ends
    included, is handed unchanged to the OS's call that sets the level. *)
Theorem setVolume_validates_range :
  forall (W : Type) (os : OS W) (w : W) (this : VolumeControl.t) (v : float),
    is_float v = true ->
    let r := run os (VolumeControl.setVolume this v) w in
    let invalid := Thrown "Volume needs to be between 0.0 and 1.0 inclusive" in
    (outcome r = invalid
     <-> xlt (value_of v) (XFinite 0) \/ xlt (XFinite 1) (value_of v))
    /\ (outcome r = invalid -> log r = [] /\ world r = w)
    /\ (xle (XFinite 0) (value_of v) /\ xle (value_of v) (XFinite 1) ->
        calls (log r)
        = [SetMasterVolumeLevelScalar (VolumeControl.device this) v NULL]).
Proof.
  intros W os w this v Hv r invalid. subst r invalid.
  rewrite run_setVolume.
  pose proof (promoted_lt_0_iff v Hv) as H0.
  pose proof (promoted_gt_1_iff v Hv) as H1.
  destruct (float_lt (float_to_double v) double_0_0) eqn:E0; cbn [orb].
  - cbn [outcome log world]. repeat split; trivial.
    + intros _. left. apply H0. reflexivity.
    + intros [Hlo _]. apply xle_not_xlt in Hlo. destruct Hlo.
      apply H0. reflexivity.
  - destruct (float_gt (float_to_double v) double_1_0) eqn:E1.
    + cbn [outcome log world orb]. repeat split; trivial.
      * intros _. right. apply H1. reflexivity.
      * intros [_ Hhi]. apply xle_not_xlt in Hhi. destruct Hhi.
        apply H1. reflexivity.
    + cbv zeta. cbn [outcome log world calls map call_of].
      repeat split; trivial.
      * destruct (FAILED _); discriminate.
      * intros [H | H]; [apply H0 in H | apply H1 in H]; discriminate.
      * destruct (FAILED _); discriminate.
      * destruct (FAILED _); discriminate.
Qed.

(** The upper boundary on the stub: 1.0 is a binary32 number and reaches
    the endpoint. *)
Lemma setVolume_validates_range_witness :
  is_float float_1_0 = true
  /\ calls (log (run Stub.os
                   (VolumeControl.setVolume {| VolumeControl.device := 12288 |}
                                            float_1_0)
                   Stub.healthy))
     = [SetMasterVolumeLevelScalar 12288 float_1_0 NULL].
Proof.
  split; [reflexivity |].
  apply (setVolume_validates_range Stub.World Stub.os Stub.healthy
           {| VolumeControl.device := 12288 |} float_1_0 eq_refl).
  split; cbn; unfold Qle; cbn; lia.
Defined.

(** ** Setting and reading back on a lawful endpoint *)

Section Lawful.
Context {W : Type} (os : OS W) (tol : float -> float -> Prop).
Context (lawful : LawfulEndpoint os tol).

(** The code's range check lets every value of the unit interval pass. *)
Lemma in_range_passes (v : float) :
  is_float v = true ->
  xle (XFinite 0) (value_of v) -> xle (value_of v) (XFinite 1) ->
  float_lt (float_to_double v) double_0_0
  || float_gt (float_to_double v) double_1_0 = false.
Proof.
  intros Hv Hlo Hhi.
  apply orb_false_iff. split.
  - destruct (float_lt (float_to_double v) double_0_0) eqn:E; [| reflexivity].
    apply (promoted_lt_0_iff v Hv) in E. destruct (xle_not_xlt _ _ Hlo E).
  - destruct (float_gt (float_to_double v) double_1_0) eqn:E; [| reflexivity].
    apply (promoted_gt_1_iff v Hv) in E. destruct (xle_not_xlt _ _ Hhi E).
Qed.

(** Reading the level after [setMuted] runs the same OS query with the
    same answer as reading it before. *)
Lemma getVolume_after_setMuted (this : VolumeControl.t) (b : BOOL) (w : W) :
  outcome (run os (VolumeControl.getVolume this)
             (world (run os (VolumeControl.setMuted this b) w)))
  = outcome (run os (VolumeControl.getVolume this) w).
Proof.
  rewrite !run_getVolume, run_setMuted. cbn [outcome world].
  rewrite (mute_keeps_volume (VolumeControl.device this) NULL b w).
  reflexivity.
Qed.

End Lawful.

(** C3.  On an endpoint that keeps the level it is given (up to the
    endpoint's tolerance), for every [v] with [0.0 <= v <= 1.0]:
    if neither OS call fails, [setVolume v] returns and the [getVolume]
    that follows returns a level within that tolerance of [v]; the code
    itself hands [v] to the OS and the OS's answer back unchanged. *)
Theorem setVolume_getVolume_roundtrip :
  forall (W : Type) (os : OS W) (tol : float -> float -> Prop),
    LawfulEndpoint os tol ->
    forall (w : W) (this : VolumeControl.t) (v : float),
      is_float v = true ->
      xle (XFinite 0) (value_of v) -> xle (value_of v) (XFinite 1) ->
      let dev := VolumeControl.device this in
      let r1 := run os (VolumeControl.setVolume this v) w in
      let r2 := run os (VolumeControl.getVolume this) (world r1) in
      FAILED (fst (os (SetMasterVolumeLevelScalar dev v NULL) w)) = false ->
      FAILED (fst (fst (os (GetMasterVolumeLevelScalar dev) (world r1)))) = false ->
      outcome r1 = Returned tt
      /\ exists v', outcome r2 = Returned v' /\ tol v v'.
Proof.
  intros W os tol L w this v Hv Hlo Hhi dev r1 r2. subst r1 r2 dev.
  rewrite run_getVolume, run_setVolume.
  rewrite (in_range_passes v Hv Hlo Hhi).
  cbv zeta. cbn [outcome world].
  intros Hset Hget. rewrite Hset, Hget.
  split; [reflexivity |].
  destruct (volume_stored (VolumeControl.device this) NULL v w Hset Hget)
    as (v' & Hread & Htol).
  exists v'. rewrite Hread. split; [reflexivity | exact Htol].
Qed.

(** 0.37 rounded to binary32, set and read back on the stub. *)
Lemma setVolume_getVolume_roundtrip_witness :
  let v : float := S754_finite false 12415140 (-25) in
  let this := {| VolumeControl.device := 12288 |} in
  is_float v = true
  /\ outcome (run Stub.os (VolumeControl.getVolume this)
                (world (run Stub.os (VolumeControl.setVolume this v)
                          Stub.healthy)))
     = Returned v.
Proof.
  intros v this. split; [reflexivity |].
  assert (Hlo : xle (XFinite 0) (value_of v)) by (cbn; unfold Qle; cbn; lia).
  assert (Hhi : xle (value_of v) (XFinite 1)) by (cbn; unfold Qle; cbn; lia).
  destruct (setVolume_getVolume_roundtrip Stub.World Stub.os eq stub_lawful
              Stub.healthy this v eq_refl Hlo Hhi eq_refl eq_refl)
    as (_ & v' & Hout & Htol).
  rewrite Hout. rewrite Htol. reflexivity.
Defined.

(** C4.  On an endpoint that keeps the mute flag it is given, for either
    boolean [b]: if neither OS call fails, [setMuted b] returns and the
    [isMuted] that follows returns [b]. *)
Theorem setMuted_isMuted_roundtrip :
  forall (W : Type) (os : OS W) (tol : float -> float -> Prop),
    LawfulEndpoint os tol ->
    forall (w : W) (this : VolumeControl.t) (b : bool),
      let dev := VolumeControl.device this in
      let r1 := run os (VolumeControl.setMuted this (BOOL_of_bool b)) w in
      let r2 := run os (VolumeControl.isMuted this) (world r1) in
      FAILED (fst (os (SetMute dev (BOOL_of_bool b) NULL) w)) = false ->
      FAILED (fst (fst (os (GetMute dev) (world r1)))) = false ->
      outcome r1 = Returned tt /\ outcome r2 = Returned (BOOL_of_bool b).
Proof.
  intros W os tol L w this b dev r1 r2. subst r1 r2 dev.
  rewrite run_isMuted, run_setMuted.
  cbv zeta. cbn [outcome world].
  intros Hset Hget. rewrite Hset, Hget.
  rewrite (mute_stored (VolumeControl.device this) NULL (BOOL_of_bool b) w Hset Hget).
  split; reflexivity.
Qed.

(** Muting the healthy stub and asking. *)
Lemma setMuted_isMuted_roundtrip_witness :
  let this := {| VolumeControl.device := 12288 |} in
  outcome (run Stub.os (VolumeControl.isMuted this)
             (world (run Stub.os (VolumeControl.setMuted this TRUE)
                       Stub.healthy)))
  = Returned TRUE.
Proof.
  intros this.
  exact (proj2 (setMuted_isMuted_roundtrip Stub.World Stub.os eq stub_lawful
                  Stub.healthy this true eq_refl eq_refl)).
Defined.

(** C5.  [setMuted b], for either boolean [b], makes one OS call, the one
    that sets the mute flag, and on an endpoint whose level does not
    depend on that flag it leaves the level alone: [getVolume] answers
    after it what it answered before it, and a level [v] set earlier is
    still the one read (within the endpoint's tolerance) after muting or
    unmuting. *)
Theorem setMuted_leaves_volume :
  forall (W : Type) (os : OS W) (tol : float -> float -> Prop),
    LawfulEndpoint os tol ->
    forall (this : VolumeControl.t) (b : bool),
      let dev := VolumeControl.device this in
      let mute := VolumeControl.setMuted this (BOOL_of_bool b) in
      (forall w : W,
          calls (log (run os mute w)) = [SetMute dev (BOOL_of_bool b) NULL])
      /\ (forall w : W,
             outcome (run os (VolumeControl.getVolume this) (world (run os mute w)))
             = outcome (run os (VolumeControl.getVolume this) w))
      /\ (forall (w : W) (v : float),
             is_float v = true ->
             xle (XFinite 0) (value_of v) -> xle (value_of v) (XFinite 1) ->
             let r1 := run os (VolumeControl.setVolume this v) w in
             let r2 := run os mute (world r1) in
             let r3 := run os (VolumeControl.getVolume this) (world r2) in
             FAILED (fst (os (SetMasterVolumeLevelScalar dev v NULL) w)) = false ->
             FAILED (fst (fst (os (GetMasterVolumeLevelScalar dev) (world r2)))) = false ->
             exists v', outcome r3 = Returned v' /\ tol v v').
Proof.
  intros W os tol L this b dev mute. subst dev mute.
  split; [| split].
  - intros w. rewrite run_setMuted. reflexivity.
  - intros w. apply (getVolume_after_setMuted os tol L).
  - intros w v Hv Hlo Hhi r1 r2 r3 Hset Hget. subst r3 r2.
    rewrite (getVolume_after_setMuted os tol L).
    assert (Hget1 : FAILED (fst (fst (os (GetMasterVolumeLevelScalar
                                            (VolumeControl.device this))
                                         (world r1)))) = false).
    { rewrite run_setMuted in Hget. cbn [world] in Hget.
      rewrite (mute_keeps_volume (VolumeControl.device this) NULL
                 (BOOL_of_bool b) (world r1)) in Hget.
      exact Hget. }
    subst r1. rewrite run_setVolume in Hget1 |- *.
    rewrite (in_range_passes v Hv Hlo Hhi) in Hget1 |- *.
    cbv zeta in Hget1 |- *. cbn [world] in Hget1 |- *.
    rewrite run_getVolume. cbn [outcome]. rewrite Hget1.
    destruct (volume_stored (VolumeControl.device this) NULL v w Hset Hget1)
      as (v' & Hread & Htol).
    exists v'. rewrite Hread. split; [reflexivity | exact Htol].
Qed.

(** On the stub: set 0.37, mute, read 0.37. *)
Lemma setMuted_leaves_volume_witness :
  let v : float := S754_finite false 12415140 (-25) in
  let this := {| VolumeControl.device := 12288 |} in
  outcome
    (run Stub.os (VolumeControl.getVolume this)
       (world (run Stub.os (VolumeControl.setMuted this TRUE)
                 (world (run Stub.os (VolumeControl.setVolume this v)
                           Stub.healthy)))))
  = Returned v.
Proof.
  intros v this.
  assert (Hlo : xle (XFinite 0) (value_of v)) by (cbn; unfold Qle; cbn; lia).
  assert (Hhi : xle (value_of v) (XFinite 1)) by (cbn; unfold Qle; cbn; lia).
  destruct (setMuted_leaves_volume Stub.World Stub.os eq stub_lawful this true)
    as (_ & _ & H).
  destruct (H Stub.healthy v eq_refl Hlo Hhi eq_refl eq_refl)
    as (v' & Hout & Htol).
  change (BOOL_of_bool true) with TRUE in Hout.
  rewrite Hout. rewrite Htol. reflexivity.
Defined.

(** ** Result codes *)

Lemma to_int32_range (x : Z) : - 2 ^ 31 <= to_int32 x < 2 ^ 31.
Proof.
  unfold to_int32.
  pose proof (Z.mod_pos_bound (x + 2 ^ 31) (2 ^ 32) ltac:(lia)). lia.
Qed.

Lemma to_int32_small (x : Z) : - 2 ^ 31 <= x < 2 ^ 31 -> to_int32 x = x.
Proof.
  intros H. unfold to_int32. rewrite Z.mod_small by lia. lia.
Qed.

Lemma to_int32_idem (x : Z) : to_int32 (to_int32 x) = to_int32 x.
Proof. apply to_int32_small, to_int32_range. Qed.

Lemma to_uint32_to_int32 (x : Z) : to_uint32 (to_int32 x) = to_uint32 x.
Proof.
  unfold to_uint32, to_int32.
  rewrite Zminus_mod_idemp_l.
  replace (x + 2 ^ 31 - 2 ^ 31) with x by lia. reflexivity.
Qed.

Lemma to_int32_0_iff (x : Z) : to_int32 x = 0 <-> to_uint32 x = 0.
Proof.
  unfold to_int32, to_uint32.
  pose proof (Z.mod_pos_bound (x + 2 ^ 31) (2 ^ 32) ltac:(lia)).
  pose proof (Z.mod_pos_bound x (2 ^ 32) ltac:(lia)).
  pose proof (Z.div_mod (x + 2 ^ 31) (2 ^ 32) ltac:(lia)).
  pose proof (Z.div_mod x (2 ^ 32) ltac:(lia)).
  lia.
Qed.

(** Or-ing in bits above those of [a] adds them. *)
Lemma lor_shifted (a b k : Z) :
  0 <= k -> 0 <= a < 2 ^ k -> Z.lor a (b * 2 ^ k) = a + b * 2 ^ k.
Proof.
  intros Hk Ha.
  assert (Hd : Z.land a (b * 2 ^ k) = 0).
  { apply Z.bits_inj'. intros n Hn.
    rewrite Z.land_spec, Z.bits_0.
    destruct (Z.lt_ge_cases n k) as [Hlt | Hge].
    - rewrite Z.mul_pow2_bits_low by exact Hlt. apply andb_false_r.
    - assert (Z.testbit a n = false) as ->; [| reflexivity].
      destruct (Z.eq_dec a 0) as [-> | Hnz]; [apply Z.bits_0 |].
      apply Z.bits_above_log2; [lia |].
      apply Z.lt_le_trans with k; [| exact Hge].
      apply Z.log2_lt_pow2; lia. }
  rewrite <- Z.lxor_lor by exact Hd.
  symmetry. apply Z.add_nocarry_lxor. exact Hd.
Qed.

(** The failure code built from a last-error code that reads positive. *)
Lemma facility_code (u : Z) :
  Z.lor (Z.lor (Z.land u 65535) (Z.shiftl FACILITY_WIN32 16)) 2147483648
  = u mod 2 ^ 16 + 458752 + 2147483648.
Proof.
  change 65535 with (Z.ones 16). rewrite Z.land_ones by lia.
  pose proof (Z.mod_pos_bound u (2 ^ 16) ltac:(lia)) as Hb.
  change (Z.shiftl FACILITY_WIN32 16) with (7 * 2 ^ 16).
  rewrite lor_shifted by lia.
  change 2147483648 with (1 * 2 ^ 31) at 1.
  rewrite lor_shifted by lia. lia.
Qed.

(** A last-error code turns into a failure exactly when it is not the
    success sentinel. *)
Lemma FAILED_HRESULT_FROM_WIN32 (e : DWORD) :
  FAILED (HRESULT_FROM_WIN32 e) = true <-> to_uint32 e <> ERROR_SUCCESS.
Proof.
  unfold FAILED, HRESULT_FROM_WIN32, ERROR_SUCCESS.
  rewrite <- (to_int32_0_iff e).
  destruct (Z.leb_spec (to_int32 e) 0) as [Hle | Hgt].
  - rewrite to_int32_idem, Z.ltb_lt. lia.
  - rewrite to_int32_idem, facility_code.
    pose proof (Z.mod_pos_bound (to_uint32 e) (2 ^ 16) ltac:(lia)) as Hb.
    rewrite Z.ltb_lt. unfold to_int32 at 1.
    replace (to_uint32 e mod 2 ^ 16 + 458752 + 2147483648 + 2 ^ 31)
      with (to_uint32 e mod 2 ^ 16 + 458752 + 1 * 2 ^ 32) by lia.
    rewrite Z.mod_add by lia. rewrite Z.mod_small by lia. lia.
Qed.

(** The failure code carries the low 16 bits of the last-error code. *)
Lemma HRESULT_FROM_WIN32_code (e : DWORD) :
  Z.land (to_uint32 (HRESULT_FROM_WIN32 e)) 65535 = Z.land (to_uint32 e) 65535.
Proof.
  unfold HRESULT_FROM_WIN32.
  destruct (to_int32 e <=? 0).
  - rewrite to_uint32_to_int32. reflexivity.
  - rewrite to_uint32_to_int32, facility_code.
    change 65535 with (Z.ones 16). rewrite !Z.land_ones by lia.
    unfold to_uint32.
    change (2 ^ 32) with (2 ^ 16 * 2 ^ 16).
    rewrite !Z.rem_mul_r by lia.
    rewrite !(Z.mul_comm (2 ^ 16)), !Z.mod_add by lia.
    rewrite !Z.mod_mod by lia.
    replace (e mod 2 ^ 16 + 458752 + 2147483648)
      with (e mod 2 ^ 16 + 32775 * 2 ^ 16) by lia.
    rewrite Z.mod_add by lia. rewrite Z.mod_mod by lia. reflexivity.
Qed.

Lemma delivery_test (r : LRESULT) (e : DWORD) :
  (r =? 0) && FAILED (HRESULT_FROM_WIN32 e) = true
  <-> r = 0 /\ to_uint32 e <> ERROR_SUCCESS.
Proof.
  rewrite andb_true_iff, Z.eqb_eq, FAILED_HRESULT_FROM_WIN32. reflexivity.
Qed.

(** ** C strings *)

Lemma c_str_idem (s : string) : c_str (c_str s) = c_str s.
Proof.
  induction s as [| c s IH]; [reflexivity |].
  cbn [c_str]. destruct (Ascii.eqb c zero) eqn:E; [reflexivity |].
  cbn [c_str]. rewrite E, IH. reflexivity.
Qed.

Lemma c_str_no_NUL (s : string) : has_NUL s = false -> c_str s = s.
Proof.
  induction s as [| c s IH]; [reflexivity |].
  cbn [c_str has_NUL]. intros H. apply orb_false_iff in H.
  destruct H as [Hc Hs]. rewrite Hc, (IH Hs). reflexivity.
Qed.

Lemma c_str_Macro (s : string) :
  c_str ("Macro: " ++ c_str s) = "Macro: " ++ c_str s.
Proof. cbn. rewrite c_str_idem. reflexivity. Qed.

(** ** Running [ExecTranslatorMacro] against any OS *)

Section RunExecTranslatorMacro.
Context {W : Type} (os : OS W) {host : V8}.

Lemma run_ExecTranslatorMacro
      (info : VolumeControlWrapper.FunctionCallbackInfo) (w : W) :
  run os (VolumeControlWrapper.ExecTranslatorMacro info) w
  = if negb (VolumeControlWrapper.Length info =? 1)
    then {| outcome := Returned (VolumeControlWrapper.ThrowError
                                   "Exactly one string parameter is required.");
            world := w; log := [] |}
    else
      let hwnd := fst (os find_translator w) in
      let w1 := snd (os find_translator w) in
      let found := {| call_of := find_translator; answer := hwnd |} in
      if hwnd =? 0
      then {| outcome := Returned (VolumeControlWrapper.ThrowError not_running);
              world := w1; log := [found] |}
      else
        match To_String (VolumeControlWrapper.arg info 0) with
        | None => {| outcome := Returned VolumeControlWrapper.Aborted;
                     world := w1; log := [found] |}
        | Some name =>
            let send := send_copy_data hwnd ("Macro: " ++ c_str name) in
            let w2 := snd (os (SetLastError ERROR_SUCCESS) w1) in
            let r := fst (os send w2) in
            let w3 := snd (os send w2) in
            let e := fst (os GetLastError w3) in
            let w4 := snd (os GetLastError w3) in
            {| outcome :=
                 Returned
                   (if (r =? 0) && FAILED (HRESULT_FROM_WIN32 e)
                    then VolumeControlWrapper.ThrowError
                           (delivery_failed (HRESULT_FROM_WIN32 e))
                    else VolumeControlWrapper.Completed
                           VolumeControlWrapper.rv_undefined);
               world := w4;
               log := [found;
                       {| call_of := SetLastError ERROR_SUCCESS;
                          answer := fst (os (SetLastError ERROR_SUCCESS) w1) |};
                       {| call_of := send; answer := r |};
                       {| call_of := GetLastError; answer := e |}] |}
        end.
Proof.
  unfold VolumeControlWrapper.ExecTranslatorMacro.
  destruct (negb (VolumeControlWrapper.Length info =? 1)); [reflexivity |].
  change (c_str "Translator CopyData Target") with "Translator CopyData Target".
  fold find_translator.
  cbn [bind Monad_Prog Prog_bind call run].
  destruct (os find_translator w) as [hwnd w1]. cbn [fst snd].
  destruct (hwnd =? 0); [reflexivity |].
  destruct (To_String (VolumeControlWrapper.arg info 0)) as [name |];
    [| reflexivity].
  unfold strlen. rewrite !c_str_Macro.
  fold (copy_data ("Macro: " ++ c_str name)).
  fold (send_copy_data hwnd ("Macro: " ++ c_str name)).
  cbn [bind Monad_Prog Prog_bind call run].
  destruct (os (SetLastError ERROR_SUCCESS) w1) as [u w2]. cbn [fst snd].
  destruct (os (send_copy_data hwnd ("Macro: " ++ c_str name)) w2) as [r w3].
  cbn [fst snd].
  destruct (os GetLastError w3) as [e w4]. cbn [fst snd].
  rewrite string_format_s_X.
  destruct ((r =? 0) && FAILED (HRESULT_FROM_WIN32 e)); reflexivity.
Qed.

End RunExecTranslatorMacro.

(** ** The macro trigger *)

Lemma ThrowError_inj {host : V8} (x y : string) :
  @Returned VolumeControlWrapper.Completion (VolumeControlWrapper.ThrowError x)
  = Returned (VolumeControlWrapper.ThrowError y) ->
  x = y.
Proof. intros H. injection H as H'. exact H'. Qed.

Lemma delivery_failed_not_arity (hr : HRESULT) :
  delivery_failed hr <> "Exactly one string parameter is required.".
Proof. unfold delivery_failed. cbn. discriminate. Qed.

Lemma delivery_failed_not_running (hr : HRESULT) :
  delivery_failed hr <> not_running.
Proof. unfold delivery_failed, not_running. cbn. discriminate. Qed.

(** C2.  [ExecTranslatorMacro] ends with the delivery-failure message
    exactly when the send it made returned 0 (not delivered) and the
    last-error code it then read is not the success sentinel; the message
    then carries, in hexadecimal, the result code made from that
    last-error code, whose low 16 bits are those of the code.  When the
    send returned 0 but the last-error code is the success sentinel, the
    call completes normally, as a delivered one does. *)
Theorem ExecTranslatorMacro_delivery_failure :
  forall (W : Type) (os : OS W) (host : V8)
         (info : VolumeControlWrapper.FunctionCallbackInfo) (w : W),
    let r := run os (VolumeControlWrapper.ExecTranslatorMacro info) w in
    let sent := first_answer send_answer (log r) in
    let err := first_answer last_error_answer (log r) in
    ((exists hr, outcome r
                 = Returned (VolumeControlWrapper.ThrowError (delivery_failed hr)))
     <-> (sent = Some 0 /\ exists e, err = Some e /\ to_uint32 e <> ERROR_SUCCESS))
    /\ (forall e,
           sent = Some 0 -> err = Some e -> to_uint32 e <> ERROR_SUCCESS ->
           outcome r = Returned (VolumeControlWrapper.ThrowError
                                   (delivery_failed (HRESULT_FROM_WIN32 e)))
           /\ Z.land (to_uint32 (HRESULT_FROM_WIN32 e)) 65535
              = Z.land (to_uint32 e) 65535)
    /\ (forall e,
           sent = Some 0 -> err = Some e -> to_uint32 e = ERROR_SUCCESS ->
           outcome r = Returned (VolumeControlWrapper.Completed
                                   VolumeControlWrapper.rv_undefined)).
Proof.
  intros W os host info w r sent err. subst sent err r.
  rewrite run_ExecTranslatorMacro.
  destruct (negb (VolumeControlWrapper.Length info =? 1)).
  { cbn [outcome log first_answer].
    split; [split | split; intros e H; discriminate H].
    - intros [hr H]. apply ThrowError_inj in H. symmetry in H.
      destruct (delivery_failed_not_arity hr H).
    - intros [H _]. discriminate H. }
  cbv zeta.
  destruct (fst (os find_translator w) =? 0).
  { cbn [outcome log].
    change (first_answer send_answer _) with (@None LRESULT).
    split; [split | split; intros e H; discriminate H].
    - intros [hr H]. apply ThrowError_inj in H. symmetry in H.
      destruct (delivery_failed_not_running hr H).
    - intros [H _]. discriminate H. }
  destruct (To_String (VolumeControlWrapper.arg info 0)) as [name |].
  2:{ cbn [outcome log].
      change (first_answer send_answer _) with (@None LRESULT).
      split; [split | split; intros e H; discriminate H].
      - intros [hr H]. discriminate H.
      - intros [H _]. discriminate H. }
  set (w1 := snd (os find_translator w)).
  set (hwnd := fst (os find_translator w)).
  set (w2 := snd (os (SetLastError ERROR_SUCCESS) w1)).
  set (send := send_copy_data hwnd ("Macro: " ++ c_str name)).
  set (ret := fst (os send w2)).
  set (e := fst (os GetLastError (snd (os send w2)))).
  cbn [outcome log].
  change (first_answer send_answer _) with (Some ret).
  change (first_answer last_error_answer _) with (Some e).
  pose proof (delivery_test ret e) as Ht.
  destruct ((ret =? 0) && FAILED (HRESULT_FROM_WIN32 e)).
  - destruct (proj1 Ht eq_refl) as [Hret He].
    split; [| split].
    + split.
      * intros _. split; [f_equal; exact Hret |].
        exists e. split; [reflexivity | exact He].
      * intros _. exists (HRESULT_FROM_WIN32 e). reflexivity.
    + intros e' _ He' _. injection He' as <-.
      split; [reflexivity | apply HRESULT_FROM_WIN32_code].
    + intros e' _ He' Hz. injection He' as <-. destruct (He Hz).
  - split; [| split].
    + split.
      * intros [hr H]. discriminate H.
      * intros [Hret [e' [He' Hnz]]]. injection Hret as Hret'.
        injection He' as <-.
        assert (false = true) by (apply Ht; split; assumption).
        discriminate.
    + intros e' Hret He' Hnz. injection Hret as Hret'. injection He' as <-.
      assert (false = true) by (apply Ht; split; assumption).
      discriminate.
    + intros; reflexivity.
Qed.

(** C6.  Called with one argument, whatever it is, [ExecTranslatorMacro]
    starts by looking up the window titled "Translator CopyData Target"
    and ends with the not-running message exactly when that lookup
    answers the null handle; in that case the lookup is the only OS call
    made: nothing is sent and the lookup is not repeated. *)
Theorem ExecTranslatorMacro_target_lookup :
  forall (W : Type) (os : OS W) (host : V8)
         (info : VolumeControlWrapper.FunctionCallbackInfo) (w : W),
    VolumeControlWrapper.Length info = 1 ->
    let r := run os (VolumeControlWrapper.ExecTranslatorMacro info) w in
    let hwnd := fst (os find_translator w) in
    (exists rest,
        log r = {| call_of := find_translator; answer := hwnd |} :: rest)
    /\ (outcome r = Returned (VolumeControlWrapper.ThrowError not_running)
        <-> hwnd = NULL)
    /\ (hwnd = NULL ->
        calls (log r) = [find_translator]
        /\ world r = snd (os find_translator w)).
Proof.
  intros W os host info w Hlen r hwnd. subst r hwnd.
  rewrite run_ExecTranslatorMacro, Hlen. cbn [Z.eqb Pos.eqb negb]. cbv zeta.
  unfold NULL.
  destruct (Z.eqb_spec (fst (os find_translator w)) 0) as [Hz | Hnz].
  - cbn [outcome log world calls map call_of].
    split; [eexists; reflexivity |].
    split; [split; trivial |]. intros _. split; reflexivity.
  - split; [| split].
    + destruct (To_String _); eexists; reflexivity.
    + split; [| intros H; destruct (Hnz H)].
      destruct (To_String _); cbn [outcome]; [| discriminate].
      destruct (_ && _); [| discriminate].
      intros H. apply ThrowError_inj in H.
      destruct (delivery_failed_not_running _ H).
    + intros H. destruct (Hnz H).
Qed.

(** One argument and no translator window: the stub is asked once. *)
Lemma ExecTranslatorMacro_target_lookup_witness :
  let info := Stub.method_call None [Stub.js_string "Foo"] in
  @VolumeControlWrapper.Length Stub.host info = 1
  /\ calls (log (run Stub.os
                   (@VolumeControlWrapper.ExecTranslatorMacro Stub.host info)
                   Stub.translator_closed))
     = [find_translator].
Proof.
  intros info. split; [reflexivity |].
  destruct (ExecTranslatorMacro_target_lookup Stub.World Stub.os Stub.host
              info Stub.translator_closed eq_refl) as (_ & _ & H).
  exact (proj1 (H eq_refl)).
Defined.

(** C7, as the code has it.  When the translator's window is found,
    [ExecTranslatorMacro], for every macro name (the empty one included:
    nothing is validated), makes exactly these OS calls after the lookup:
    it clears the last-error code, sends once, blocking, with a timeout of
    5000 and the abort-if-hung flag, and reads the last-error code.  The
    block sent has identifier 24 and carries "Macro: " followed by the
    name read as a C string, that is, cut at its first NUL; for a name
    without NUL this is "Macro: " followed by the whole name. *)
Theorem ExecTranslatorMacro_payload :
  forall (W : Type) (os : OS W) (host : V8)
         (info : VolumeControlWrapper.FunctionCallbackInfo) (w : W)
         (a : Value) (name : string),
    VolumeControlWrapper.args info = [a] ->
    To_String a = Some name ->
    let hwnd := fst (os find_translator w) in
    hwnd <> NULL ->
    let r := run os (VolumeControlWrapper.ExecTranslatorMacro info) w in
    let payload := "Macro: " ++ c_str name in
    calls (log r)
    = [find_translator;
       SetLastError ERROR_SUCCESS;
       SendMessageTimeoutA hwnd WM_COPYDATA 0
         {| dwData := 24;
            cbData := Z.of_nat (String.length payload);
            lpData := payload |}
         SMTO_ABORTIFHUNG 5000 NULL;
       GetLastError]
    /\ List.length (filter is_send (calls (log r))) = 1%nat
    /\ (has_NUL name = false -> payload = "Macro: " ++ name).
Proof.
  intros W os host info w a name Hargs Hname hwnd Hfound r payload.
  subst r payload hwnd.
  rewrite run_ExecTranslatorMacro.
  unfold VolumeControlWrapper.Length, VolumeControlWrapper.arg.
  rewrite Hargs. cbn [List.length Z.of_nat Pos.of_succ_nat Z.eqb Pos.eqb negb nth].
  rewrite Hname. cbv zeta.
  destruct (Z.eqb_spec (fst (os find_translator w)) 0) as [Hz | _];
    [destruct (Hfound Hz) |].
  split; [reflexivity |]. split; [reflexivity |].
  intros Hnul. rewrite (c_str_no_NUL name Hnul). reflexivity.
Qed.

(** The spec's example on the stub: the macro "Foo" arrives as the ten
    bytes "Macro: Foo" in the translator's window. *)
Lemma ExecTranslatorMacro_payload_witness :
  let info := Stub.method_call None [Stub.js_string "Foo"] in
  Stub.delivered
    (world (run Stub.os
              (@VolumeControlWrapper.ExecTranslatorMacro Stub.host info)
              Stub.healthy))
  = [(66, copy_data "Macro: Foo")]
  /\ calls (log (run Stub.os
                   (@VolumeControlWrapper.ExecTranslatorMacro Stub.host info)
                   Stub.healthy))
     = [find_translator; SetLastError ERROR_SUCCESS;
        send_copy_data 66 "Macro: Foo"; GetLastError].
Proof.
  intros info. split; [reflexivity |].
  assert (Hfound : fst (Stub.os find_translator Stub.healthy) <> NULL)
    by (cbn; discriminate).
  exact (proj1 (ExecTranslatorMacro_payload Stub.World Stub.os Stub.host info
                  Stub.healthy (Stub.js_string "Foo") "Foo"
                  eq_refl eq_refl Hfound)).
Defined.

(** C7, as stated, fails for a name with an embedded NUL: for the
    three-byte name 'a', NUL, 'b' the block delivered carries "Macro: a",
    which is not "Macro: " followed by the name. *)
Lemma ExecTranslatorMacro_payload_cut_at_NUL :
  let name := String "a" (String zero (String "b" EmptyString)) in
  let info := Stub.method_call None [Stub.js_string name] in
  exists cds,
    Stub.delivered
      (world (run Stub.os
                (@VolumeControlWrapper.ExecTranslatorMacro Stub.host info)
                Stub.healthy))
    = [(66, cds)]
    /\ lpData cds = "Macro: a"
    /\ cbData cds = 8
    /\ lpData cds <> "Macro: " ++ name.
Proof.
  intros name info. eexists. split; [reflexivity |].
  split; [reflexivity |]. split; [reflexivity |].
  cbn. intros H. discriminate H.
Qed.

(** ** Construction *)

Section RunConstructor.
Context {W : Type} (os : OS W).

Lemma run_VolumeControl (w : W) :
  let a1 := fst (os create_enumerator w) in
  let w1 := snd (os create_enumerator w) in
  let c2 := default_render_endpoint (snd a1) in
  let a2 := fst (os c2 w1) in
  let w2 := snd (os c2 w1) in
  let c3 := activate_volume (snd a2) in
  let a3 := fst (os c3 w2) in
  let w3 := snd (os c3 w2) in
  let e1 := {| call_of := create_enumerator; answer := a1 |} in
  let e2 := {| call_of := c2; answer := a2 |} in
  let e3 := {| call_of := c3; answer := a3 |} in
  run os VolumeControl.VolumeControl w
  = if FAILED (fst a1)
    then {| outcome := Thrown (no_enumerator (fst a1));
            world := w1; log := [e1] |}
    else if FAILED (fst a2)
    then {| outcome := Thrown (no_default_endpoint (fst a2));
            world := w2; log := [e1; e2] |}
    else if FAILED (fst a3)
    then {| outcome := Thrown (no_activation (fst a3));
            world := w3; log := [e1; e2; e3] |}
    else {| outcome := Returned {| VolumeControl.device := snd a3 |};
            world := w3; log := [e1; e2; e3] |}.
Proof.
  unfold VolumeControl.VolumeControl.
  fold create_enumerator.
  cbn [bind Monad_Prog Prog_bind call run].
  destruct (os create_enumerator w) as [[hr1 p1] w1]. cbn [fst snd].
  unfold checkErrors at 1. rewrite string_format_s_X.
  destruct (FAILED hr1); [reflexivity |].
  fold (default_render_endpoint p1).
  cbn [bind Monad_Prog Prog_bind call run].
  destruct (os (default_render_endpoint p1) w1) as [[hr2 p2] w2]. cbn [fst snd].
  unfold checkErrors at 1. rewrite string_format_s_X.
  destruct (FAILED hr2); [reflexivity |].
  fold (activate_volume p2).
  cbn [bind Monad_Prog Prog_bind call run].
  destruct (os (activate_volume p2) w2) as [[hr3 p3] w3]. cbn [fst snd].
  unfold checkErrors at 1. rewrite string_format_s_X.
  destruct (FAILED hr3); reflexivity.
Qed.

(** [try { p; return ok } catch (std::string e) { return h e }]. *)
Lemma run_try_catch {R : Type} (p : Prog R) (h : string -> R) (w : W) :
  run os (try_catch p (fun e => ret (h e))) w
  = {| outcome := match outcome (run os p w) with
                  | Returned r => Returned r
                  | Thrown e => Returned (h e)
                  end;
       world := world (run os p w);
       log := log (run os p w) |}.
Proof.
  revert w. induction p as [r | e | c k IH]; intros w; try reflexivity.
  cbn [try_catch run]. destruct (os c w) as [x w']. rewrite IH.
  reflexivity.
Qed.

Lemma run_bind_ret {A B : Type} (p : Prog A) (f : A -> B) (w : W) :
  run os (a <- p ;; ret (f a)) w
  = {| outcome := match outcome (run os p w) with
                  | Returned a => Returned (f a)
                  | Thrown e => Thrown e
                  end;
       world := world (run os p w);
       log := log (run os p w) |}.
Proof.
  revert w. induction p as [r | e | c k IH]; intros w; try reflexivity.
  cbn [bind Monad_Prog Prog_bind run] in IH |- *.
  destruct (os c w) as [x w']. rewrite IH. reflexivity.
Qed.

End RunConstructor.

(** C9.  The constructor takes three OS steps in order: create the device
    enumerator, ask it for the default rendering endpoint, activate the
    volume interface on that endpoint.  It throws exactly when one of the
    steps it reaches fails, with that step's message; a failing step is
    the last call made, so no later step runs; and when it throws there
    is no object: [New] ends with the error and wraps nothing. *)
Theorem VolumeControl_construction :
  forall (W : Type) (os : OS W) (w : W),
    let a1 := fst (os create_enumerator w) in
    let w1 := snd (os create_enumerator w) in
    let c2 := default_render_endpoint (snd a1) in
    let a2 := fst (os c2 w1) in
    let w2 := snd (os c2 w1) in
    let c3 := activate_volume (snd a2) in
    let a3 := fst (os c3 w2) in
    let enumerator_unavailable := FAILED (fst a1) = true in
    let no_default_device :=
      FAILED (fst a1) = false /\ FAILED (fst a2) = true in
    let not_activated :=
      FAILED (fst a1) = false /\ FAILED (fst a2) = false
      /\ FAILED (fst a3) = true in
    let r := run os VolumeControl.VolumeControl w in
    ((exists e, outcome r = Thrown e)
     <-> enumerator_unavailable \/ no_default_device \/ not_activated)
    /\ (enumerator_unavailable ->
        outcome r = Thrown (no_enumerator (fst a1))
        /\ calls (log r) = [create_enumerator])
    /\ (no_default_device ->
        outcome r = Thrown (no_default_endpoint (fst a2))
        /\ calls (log r) = [create_enumerator; c2])
    /\ (not_activated ->
        outcome r = Thrown (no_activation (fst a3))
        /\ calls (log r) = [create_enumerator; c2; c3])
    /\ (forall (host : V8) (info : VolumeControlWrapper.FunctionCallbackInfo)
               (e : string),
           VolumeControlWrapper.IsConstructCall info = true ->
           outcome r = Thrown e ->
           outcome (run os (VolumeControlWrapper.New info) w)
           = Returned (VolumeControlWrapper.ThrowError e)).
Proof.
  intros W os w a1 w1 c2 a2 w2 c3 a3 U D A r.
  assert (Hr : r = run os VolumeControl.VolumeControl w) by reflexivity.
  rewrite run_VolumeControl in Hr.
  fold a1 w1 in Hr. fold c2 in Hr. fold a2 w2 in Hr. fold c3 in Hr. fold a3 in Hr.
  cbv zeta in Hr. subst U D A.
  split; [| split; [| split; [| split]]].
  - rewrite Hr.
    destruct (FAILED (fst a1)); [| destruct (FAILED (fst a2));
                                   [| destruct (FAILED (fst a3))]];
      cbn [outcome]; split;
      try (intros _; eexists; reflexivity);
      try (intros _; tauto).
    + intros [e H]. discriminate H.
    + intros [H | [[_ H] | [_ [_ H]]]]; discriminate H.
  - intros H1. rewrite Hr, H1. split; reflexivity.
  - intros [H1 H2]. rewrite Hr, H1, H2. split; reflexivity.
  - intros [H1 [H2 H3]]. rewrite Hr, H1, H2, H3. split; reflexivity.
  - intros host info e Hc He.
    unfold VolumeControlWrapper.New. rewrite Hc.
    rewrite run_try_catch, run_bind_ret. cbn [outcome].
    fold r. rewrite He. reflexivity.
Qed.

(** ** Hexadecimal rendering *)

Lemma hex_digit_value_hex_digit (d : Z) :
  0 <= d < 16 -> hex_digit_value (hex_digit d) = Some d.
Proof.
  intros H.
  assert (C : d = 0 \/ d = 1 \/ d = 2 \/ d = 3 \/ d = 4 \/ d = 5 \/ d = 6
              \/ d = 7 \/ d = 8 \/ d = 9 \/ d = 10 \/ d = 11 \/ d = 12
              \/ d = 13 \/ d = 14 \/ d = 15) by lia.
  repeat (destruct C as [-> | C]; [reflexivity |]).
  subst d. reflexivity.
Qed.

(** Reading back what [hex_digits] wrote in front of [acc]. *)
Lemma hex_value_from_hex_digits (fuel : nat) :
  forall (n : Z) (acc : string) (k v : Z),
    0 <= n < 16 ^ Z.of_nat fuel -> (0 < fuel)%nat -> 0 <= k ->
    (forall a, hex_value_from acc a = Some (a * 16 ^ k + v)) ->
    exists k', 0 <= k' /\
      forall a, hex_value_from (hex_digits fuel n acc) a
                = Some (a * 16 ^ k' + (n * 16 ^ k + v)).
Proof.
  induction fuel as [| fuel IH]; intros n acc k v Hn Hfuel Hk Hacc; [lia |].
  cbn [hex_digits].
  pose proof (Z.mod_pos_bound n 16 ltac:(lia)) as Hd.
  pose proof (Z.div_mod n 16 ltac:(lia)) as Hdm.
  assert (Hacc' : forall a,
             hex_value_from (String (hex_digit (n mod 16)) acc) a
             = Some (a * 16 ^ (k + 1) + ((n mod 16) * 16 ^ k + v))).
  { intros a. cbn [hex_value_from].
    rewrite hex_digit_value_hex_digit by exact Hd.
    rewrite Hacc. f_equal. rewrite Z.pow_add_r by lia. ring. }
  destruct (Z.eqb_spec (n / 16) 0) as [Hz | Hnz].
  - exists (k + 1). split; [lia |]. intros a. rewrite Hacc'.
    f_equal. replace n with (n mod 16) at 2 by lia. reflexivity.
  - assert (Hq : 0 <= n / 16 < 16 ^ Z.of_nat fuel).
    { rewrite Nat2Z.inj_succ, Z.pow_succ_r in Hn by lia.
      split; [apply Z.div_pos; lia |].
      apply Z.div_lt_upper_bound; lia. }
    assert (Hf : (0 < fuel)%nat).
    { destruct fuel; [| lia]. cbn in Hq. lia. }
    destruct (IH (n / 16) (String (hex_digit (n mod 16)) acc) (k + 1)
                 ((n mod 16) * 16 ^ k + v) Hq Hf ltac:(lia) Hacc')
      as (k' & Hk' & Hread).
    exists k'. split; [exact Hk' |]. intros a. rewrite Hread. f_equal.
    rewrite Z.pow_add_r by lia.
    replace n with (16 * (n / 16) + n mod 16) at 3 by lia. ring.
Qed.

Lemma hex_digits_nonempty (fuel : nat) (n : Z) (acc : string) :
  (0 < fuel)%nat -> hex_digits fuel n acc <> EmptyString.
Proof.
  revert n acc. induction fuel as [| fuel IH]; intros n acc Hf; [lia |].
  cbn [hex_digits]. destruct (n / 16 =? 0); [discriminate |].
  destruct fuel as [| fuel']; [cbn; discriminate |].
  apply IH. lia.
Qed.

(** [%X] prints the unsigned reading of its argument. *)
Lemma hex_value_format_X (x : Z) : hex_value (format_X x) = Some (to_uint32 x).
Proof.
  unfold format_X, hex_value.
  pose proof (hex_digits_nonempty 8 (to_uint32 x) EmptyString ltac:(lia)) as Hne.
  destruct (hex_value_from_hex_digits 8 (to_uint32 x) EmptyString 0 0)
    as (k' & _ & Hread).
  - unfold to_uint32. pose proof (Z.mod_pos_bound x (2 ^ 32) ltac:(lia)).
    change (16 ^ Z.of_nat 8) with (2 ^ 32). lia.
  - lia.
  - lia.
  - intros a. cbn [hex_value_from]. f_equal. lia.
  - destruct (hex_digits 8 (to_uint32 x) EmptyString) eqn:E; [destruct (Hne eq_refl) |].
    rewrite Hread. f_equal. lia.
Qed.

(** ** The binding surface *)

Lemma find_filtered_out {A : Type} (name : string) (o : list (string * A)) :
  find (fun p => String.eqb (fst p) name)
       (filter (fun p => negb (String.eqb (fst p) name)) o)
  = None.
Proof.
  induction o as [| p o IH]; [reflexivity |].
  cbn [filter]. destruct (String.eqb (fst p) name) eqn:E; cbn [negb].
  - exact IH.
  - cbn [find]. rewrite E. exact IH.
Qed.

Lemma find_app_none {A : Type} (f : A -> bool) (l1 l2 : list A) :
  find f l1 = None -> find f (l1 ++ l2)%list = find f l2.
Proof.
  induction l1 as [| x l1 IH]; [reflexivity |].
  cbn [find app]. destruct (f x); [discriminate |]. exact IH.
Qed.

(** A property that was just set is the one read. *)
Lemma get_set_property {A : Type} (name : string) (a : A)
      (o : list (string * A)) :
  VolumeControlWrapper.get_property name
    (VolumeControlWrapper.set_property name a o)
  = Some a.
Proof.
  unfold VolumeControlWrapper.get_property, VolumeControlWrapper.set_property.
  rewrite find_app_none by apply find_filtered_out.
  cbn [find fst]. rewrite String.eqb_refl. reflexivity.
Qed.


(** ** Arity *)

Lemma arity_test (n : Z) : n <> 1 -> negb (n =? 1) = true.
Proof. intros H. apply negb_true_iff, Z.eqb_neq, H. Qed.

(** C10.  Each of [setVolume], [setMuted] and [execTranslatorMacro],
    called with a number of arguments other than one, ends with its arity
    message at once: no OS call has been made (no range check, no window
    lookup) and the world is the one it started in. *)
Theorem arity_checked_first :
  forall (W : Type) (os : OS W) (host : V8)
         (info : VolumeControlWrapper.FunctionCallbackInfo) (w : W),
    VolumeControlWrapper.Length info <> 1 ->
    run os (VolumeControlWrapper.SetVolume info) w
    = {| outcome := Returned (VolumeControlWrapper.ThrowError
                                "Exactly one number parameter is required.");
         world := w; log := [] |}
    /\ run os (VolumeControlWrapper.SetMuted info) w
       = {| outcome := Returned (VolumeControlWrapper.ThrowError
                                   "Exactly one boolean parameter is required.");
            world := w; log := [] |}
    /\ run os (VolumeControlWrapper.ExecTranslatorMacro info) w
       = {| outcome := Returned (VolumeControlWrapper.ThrowError
                                   "Exactly one string parameter is required.");
            world := w; log := [] |}.
Proof.
  intros W os host info w Hlen.
  unfold VolumeControlWrapper.SetVolume, VolumeControlWrapper.SetMuted,
    VolumeControlWrapper.ExecTranslatorMacro.
  rewrite (arity_test _ Hlen).
  repeat split.
Qed.

(** No argument at all, an out-of-range second argument, a closed
    translator: the arity message comes first and the stub is untouched. *)
Lemma arity_checked_first_witness :
  let none := Stub.method_call (Some Stub.accessor) [] in
  let two := Stub.method_call (Some Stub.accessor)
               [Stub.js_number float_1_0; Stub.js_number (S754_infinity false)] in
  @VolumeControlWrapper.Length Stub.host none <> 1
  /\ @VolumeControlWrapper.Length Stub.host two <> 1
  /\ log (run Stub.os (@VolumeControlWrapper.SetVolume Stub.host two)
            Stub.healthy) = []
  /\ world (run Stub.os (@VolumeControlWrapper.ExecTranslatorMacro Stub.host none)
              Stub.translator_closed) = Stub.translator_closed.
Proof.
  intros none two.
  assert (H0 : @VolumeControlWrapper.Length Stub.host none <> 1)
    by (cbn; discriminate).
  assert (H2 : @VolumeControlWrapper.Length Stub.host two <> 1)
    by (cbn; discriminate).
  split; [exact H0 |]. split; [exact H2 |]. split.
  - destruct (arity_checked_first Stub.World Stub.os Stub.host two
                Stub.healthy H2) as (H & _ & _).
    rewrite H. reflexivity.
  - destruct (arity_checked_first Stub.World Stub.os Stub.host none
                Stub.translator_closed H0) as (_ & _ & H).
    rewrite H. reflexivity.
Defined.

(** ** The remaining runs on the stub *)

(** A translator that lets the send time out: the call ends with the
    delivery-failure message for last-error code 1460. *)
Lemma ExecTranslatorMacro_delivery_failure_witness :
  outcome (run Stub.os
             (@VolumeControlWrapper.ExecTranslatorMacro Stub.host
                (Stub.method_call None [Stub.js_string "Foo"]))
             Stub.translator_hung)
  = Returned (VolumeControlWrapper.ThrowError
                "Failed to execute Translator Macro (0x800705B4)").
Proof.
  destruct (ExecTranslatorMacro_delivery_failure Stub.World Stub.os Stub.host
              (Stub.method_call None [Stub.js_string "Foo"])
              Stub.translator_hung) as (_ & H & _).
  assert (Hcode : to_uint32 1460 <> ERROR_SUCCESS) by (cbn; discriminate).
  exact (proj1 (H 1460 eq_refl eq_refl Hcode)).
Defined.

(** No default rendering endpoint: construction stops at the second step
    and [New] wraps nothing. *)
Lemma VolumeControl_construction_witness :
  outcome (run Stub.os VolumeControl.VolumeControl Stub.no_default_device)
  = Thrown "Error when trying to get a handle to the default audio enpoint (0x80070490)"
  /\ calls (log (run Stub.os VolumeControl.VolumeControl Stub.no_default_device))
     = [create_enumerator; default_render_endpoint 4096].
Proof.
  destruct (VolumeControl_construction Stub.World Stub.os Stub.no_default_device)
    as (_ & _ & H & _).
  exact (H (conj eq_refl eq_refl)).
Defined.

(** ** The stub's window table *)

(** With real (non-null) handles in the table, the stub's lookup answers
    the null handle exactly when no window has exactly the title asked
    for. *)
Lemma stub_find_window_NULL (title : string) (w : Stub.World) :
  (forall p, In p (Stub.windows w) -> snd p <> NULL) ->
  Stub.find_window title w = NULL
  <-> ~ In title (map fst (Stub.windows w)).
Proof.
  unfold Stub.find_window.
  induction (Stub.windows w) as [| p l IH]; intros Hreal.
  - cbn. tauto.
  - cbn [find map In].
    destruct (String.eqb_spec (fst p) title) as [E | E].
    + split.
      * intros H. destruct (Hreal p (or_introl eq_refl) H).
      * intros H. destruct (H (or_introl E)).
    + rewrite IH by (intros q Hq; apply Hreal; right; exact Hq).
      tauto.
Qed.

(** ** Runs on the stub *)

(** -0.1 and 1.1, rounded to binary32, are refused and the endpoint is
    not called. *)
Example setVolume_below_range :
  run Stub.os
      (VolumeControl.setVolume {| VolumeControl.device := 12288 |}
                               (S754_finite true 13421773 (-27)))
      Stub.healthy
  = {| outcome := Thrown "Volume needs to be between 0.0 and 1.0 inclusive";
       world := Stub.healthy; log := [] |}.
Proof. reflexivity. Qed.

Example setVolume_above_range :
  run Stub.os
      (VolumeControl.setVolume {| VolumeControl.device := 12288 |}
                               (S754_finite false 9227469 (-23)))
      Stub.healthy
  = {| outcome := Thrown "Volume needs to be between 0.0 and 1.0 inclusive";
       world := Stub.healthy; log := [] |}.
Proof. reflexivity. Qed.

(** Both ends of the range are accepted; so are -0.0 and a NaN, which are
    neither below 0.0 nor above 1.0. *)
Example setVolume_boundaries :
  let this := {| VolumeControl.device := 12288 |} in
  outcome (run Stub.os (VolumeControl.setVolume this float_0_0) Stub.healthy)
  = Returned tt
  /\ outcome (run Stub.os (VolumeControl.setVolume this float_1_0) Stub.healthy)
     = Returned tt
  /\ outcome (run Stub.os (VolumeControl.setVolume this (S754_zero true))
                Stub.healthy)
     = Returned tt
  /\ calls (log (run Stub.os (VolumeControl.setVolume this S754_nan)
                   Stub.healthy))
     = [SetMasterVolumeLevelScalar 12288 S754_nan NULL].
Proof. repeat split. Qed.

(** Through the binding the script's number, a binary64, is first rounded
    to binary32: 0.37 is stored as the nearest binary32 number and read
    back as 0.37000000476837158. *)
Example SetVolume_GetVolume_0_37 :
  let d_0_37 : double := S754_finite false 6665327448508334 (-54) in
  let set := Stub.method_call (Some Stub.accessor) [Stub.js_number d_0_37] in
  let get := Stub.method_call (Some Stub.accessor) [] in
  outcome (run Stub.os (@VolumeControlWrapper.GetVolume Stub.host get)
             (world (run Stub.os (@VolumeControlWrapper.SetVolume Stub.host set)
                       Stub.healthy)))
  = Returned (VolumeControlWrapper.Completed
                (VolumeControlWrapper.rv_double
                   (S754_finite false 6665327534407680 (-54)))).
Proof. reflexivity. Qed.

(** The same rounding comes before the range check: the binary64 number
    just above 1.0 rounds to 1.0 and is accepted. *)
Example SetVolume_rounds_before_validating :
  let above_1 : double := S754_finite false 4503599627370497 (-52) in
  let set := Stub.method_call (Some Stub.accessor) [Stub.js_number above_1] in
  is_double above_1 = true
  /\ float_gt above_1 double_1_0 = true
  /\ run Stub.os (@VolumeControlWrapper.SetVolume Stub.host set) Stub.healthy
     = {| outcome := Returned (VolumeControlWrapper.Completed
                                 VolumeControlWrapper.rv_undefined);
          world := Stub.set_volume float_1_0 Stub.healthy;
          log := [{| call_of := SetMasterVolumeLevelScalar 12288 float_1_0 NULL;
                     answer := 0 |}] |}.
Proof. repeat split. Qed.

(** Construction on the healthy stub wraps the activated interface. *)
Example New_on_healthy :
  outcome (run Stub.os
             (@VolumeControlWrapper.New Stub.host
                (@VolumeControlWrapper.Build_FunctionCallbackInfo Stub.host
                   [] true None))
             Stub.healthy)
  = Returned (VolumeControlWrapper.Completed
                (VolumeControlWrapper.rv_This Stub.accessor)).
Proof. reflexivity. Qed.

(** Construction without a default device ends with the error and no
    object. *)
Example New_without_default_device :
  outcome (run Stub.os
             (@VolumeControlWrapper.New Stub.host
                (@VolumeControlWrapper.Build_FunctionCallbackInfo Stub.host
                   [] true None))
             Stub.no_default_device)
  = Returned (VolumeControlWrapper.ThrowError
                "Error when trying to get a handle to the default audio enpoint (0x80070490)").
Proof. reflexivity. Qed.

(** A send that returns 0 without setting a last-error code counts as
    delivered. *)
Example ExecTranslatorMacro_silent_drop :
  outcome (run Stub.os
             (@VolumeControlWrapper.ExecTranslatorMacro Stub.host
                (Stub.method_call None [Stub.js_string "Foo"]))
             (Stub.set_send_reply (0, None) Stub.healthy))
  = Returned (VolumeControlWrapper.Completed VolumeControlWrapper.rv_undefined).
Proof. reflexivity. Qed.

(** The empty macro name passes through: the payload is "Macro: ". *)
Example ExecTranslatorMacro_empty_name :
  Stub.delivered
    (world (run Stub.os
              (@VolumeControlWrapper.ExecTranslatorMacro Stub.host
                 (Stub.method_call None [Stub.js_string EmptyString]))
              Stub.healthy))
  = [(66, copy_data "Macro: ")].
Proof. reflexivity. Qed.


(* ===================================================================== *)
(** * Properties beyond the claims *)
(* ===================================================================== *)

(** ** The two implicit conversions *)

Lemma iter_pos_shr_1_exact (k : positive) :
  forall m : positive,
    iter_pos shr_1 k {| shr_m := Zpos (Pos.iter xO m k); shr_r := false; shr_s := false |}
    = {| shr_m := Zpos m; shr_r := false; shr_s := false |}.
Proof.
  induction k as [k IH | k IH |]; intros m; cbn [iter_pos Pos.iter].
  - cbn [shr_1 orb]. rewrite IH, IH. reflexivity.
  - rewrite IH, IH. reflexivity.
  - reflexivity.
Qed.

Lemma binary_round_aux_shift (s : bool) (m k : positive) (e : Z) :
  bounded float_prec float_emax m e = true ->
  Zpos (digits2_pos m) + Zpos k = 53 ->
  binary_round_aux float_prec float_emax s (Zpos (Pos.iter xO m k)) (e - Zpos k) loc_Exact
  = S754_finite s m e.
Proof.
  intros Hv Hk.
  assert (Hc : fexp float_prec float_emax (Zpos (digits2_pos m) + e) = e).
  { unfold bounded in Hv. apply andb_true_iff in Hv. destruct Hv as [Hc _].
    apply Z.eqb_eq in Hc. exact Hc. }
  destruct (float_canonical m e Hv) as (Hd & _ & He).
  unfold binary_round_aux, shr_fexp.
  cbn [Zdigits2 shr_record_of_loc].
  rewrite digits2_pos_iter_xO, Pos2Z.inj_add.
  replace (Zpos (digits2_pos m) + Zpos k + (e - Zpos k))
    with (Zpos (digits2_pos m) + e) by lia.
  rewrite Hc.
  replace (e - (e - Zpos k)) with (Zpos k) by lia.
  cbn [shr]. rewrite iter_pos_shr_1_exact.
  cbn [shr_m loc_of_shr_record round_nearest_even Zdigits2 shr_record_of_loc].
  replace (e - Zpos k + Zpos k) with e by lia.
  rewrite Hc. rewrite Z.sub_diag. cbn [shr shr_m].
  unfold float_prec, float_emax.
  destruct (Z.leb_spec e (128 - 24)); [reflexivity | lia].
Qed.

Lemma double_to_float_float_to_double (v : float) :
  is_float v = true -> double_to_float (float_to_double v) = v.
Proof.
  unfold is_float.
  destruct v as [s | s | | s m e]; cbn [valid_binary]; intros Hv;
    try reflexivity.
  rewrite (float_to_double_finite s m e Hv).
  destruct (float_canonical m e Hv) as (Hd & _ & He).
  set (k := Z.to_pos (53 - Zpos (digits2_pos m))).
  assert (Hk : Zpos (digits2_pos m) + Zpos k = 53)
    by (unfold k; rewrite Z2Pos.id; lia).
  assert (Hc : fexp float_prec float_emax (Zpos (digits2_pos m) + e) = e).
  { unfold bounded in Hv. apply andb_true_iff in Hv. destruct Hv as [Hc _].
    apply Z.eqb_eq in Hc. exact Hc. }
  unfold double_to_float, round_to, binary_normalize.
  assert (Hround : binary_round float_prec float_emax s (Pos.iter xO m k) (e - Zpos k)
                   = S754_finite s m e).
  { unfold binary_round, shl_align.
    rewrite digits2_pos_iter_xO, Pos2Z.inj_add.
    replace (Zpos (digits2_pos m) + Zpos k + (e - Zpos k))
      with (Zpos (digits2_pos m) + e) by lia.
    rewrite Hc.
    replace (e - (e - Zpos k)) with (Zpos k) by lia.
    apply binary_round_aux_shift; assumption. }
  destruct s; cbn [cond_Zopp Z.opp]; exact Hround.
Qed.

Lemma float_to_double_exact (v : float) :
  is_float v = true ->
  is_double (float_to_double v) = true
  /\ xeq (value_of (float_to_double v)) (value_of v).
Proof.
  unfold is_float, is_double.
  destruct v as [s | s | | s m e]; cbn [valid_binary]; intros Hv.
  - split; [reflexivity | cbn; reflexivity].
  - split; [reflexivity | destruct s; exact I].
  - split; [reflexivity | exact I].
  - rewrite (float_to_double_finite s m e Hv).
    destruct (float_canonical m e Hv) as (Hd & _ & He).
    set (k := Z.to_pos (53 - Zpos (digits2_pos m))).
    assert (Hk : Zpos (digits2_pos m) + Zpos k = 53)
      by (unfold k; rewrite Z2Pos.id; lia).
    split.
    + cbn [valid_binary]. unfold bounded, canonical_mantissa.
      rewrite digits2_pos_iter_xO, Pos2Z.inj_add.
      apply andb_true_iff. split.
      * apply Z.eqb_eq. unfold fexp, emin, double_prec, double_emax. lia.
      * apply Z.leb_le. unfold double_prec, double_emax. lia.
    + cbn [value_of xeq]. unfold finite_value.
      rewrite Zpos_iter_xO.
      assert (Hpk : 0 < 2 ^ Zpos k) by (apply Z.pow_pos_nonneg; lia).
      destruct (Z.leb_spec 0 e) as [E | E];
        destruct (Z.leb_spec 0 (e - Zpos k)) as [E' | E'];
        unfold Qeq; cbn [Qnum Qden].
      * replace e with ((e - Zpos k) + Zpos k) at 2 by lia.
        rewrite Z.pow_add_r by lia. destruct s; cbn [cond_Zopp]; lia.
      * assert (Hp : 0 < 2 ^ (- (e - Zpos k))) by (apply Z.pow_pos_nonneg; lia).
        rewrite Z2Pos.id by exact Hp.
        replace (Zpos k) with (e + - (e - Zpos k)) at 1 by lia.
        rewrite Z.pow_add_r by lia. destruct s; cbn [cond_Zopp]; lia.
      * lia.
      * assert (Hp : 0 < 2 ^ (- (e - Zpos k))) by (apply Z.pow_pos_nonneg; lia).
        assert (Hp' : 0 < 2 ^ (- e)) by (apply Z.pow_pos_nonneg; lia).
        rewrite !Z2Pos.id by assumption.
        replace (- (e - Zpos k)) with (- e + Zpos k) by lia.
        rewrite Z.pow_add_r by lia. destruct s; cbn [cond_Zopp]; lia.
Qed.

(** ** Strings and hexadecimal digits *)

Lemma length_append (s t : string) :
  String.length (s ++ t) = (String.length s + String.length t)%nat.
Proof. induction s as [| c s IH]; cbn; [reflexivity | rewrite IH; reflexivity]. Qed.

Lemma append_cancel_l (s t u : string) : s ++ t = s ++ u -> t = u.
Proof.
  induction s as [| c s IH]; cbn; intros H; [exact H |].
  injection H as H. exact (IH H).
Qed.

Lemma append_cancel_r (t : string) :
  forall s u : string, s ++ t = u ++ t -> s = u.
Proof.
  induction s as [| c s IH]; intros [| d u] H; cbn in H.
  - reflexivity.
  - apply (f_equal String.length) in H. cbn in H. rewrite length_append in H. lia.
  - apply (f_equal String.length) in H. cbn in H. rewrite length_append in H. lia.
  - injection H as Hc H. rewrite Hc, (IH u H). reflexivity.
Qed.

Lemma has_NUL_append (s t : string) :
  has_NUL (s ++ t) = has_NUL s || has_NUL t.
Proof.
  induction s as [| c s IH]; cbn; [reflexivity |].
  rewrite IH, orb_assoc. reflexivity.
Qed.

Lemma has_NUL_c_str (s : string) : has_NUL (c_str s) = false.
Proof.
  induction s as [| c s IH]; [reflexivity |].
  cbn [c_str]. destruct (Ascii.eqb c zero) eqn:E; [reflexivity |].
  cbn [has_NUL]. rewrite E, IH. reflexivity.
Qed.

Lemma hex_digit_not_NUL (d : Z) : Ascii.eqb (hex_digit d) zero = false.
Proof.
  unfold hex_digit.
  destruct d as [| p |]; try reflexivity.
  do 4 (destruct p as [p | p |]; try reflexivity).
Qed.

Lemma has_NUL_hex_digits (fuel : nat) :
  forall (n : Z) (acc : string),
    has_NUL acc = false -> has_NUL (hex_digits fuel n acc) = false.
Proof.
  induction fuel as [| fuel IH]; intros n acc Hacc; [exact Hacc |].
  cbn [hex_digits].
  assert (H : has_NUL (String (hex_digit (n mod 16)) acc) = false).
  { cbn [has_NUL]. rewrite hex_digit_not_NUL, Hacc. reflexivity. }
  destruct (n / 16 =? 0); [exact H | apply IH, H].
Qed.

(** The number of digits [hex_digits] writes is the number of base-16
    digits of [n]. *)
Lemma length_hex_digits (fuel : nat) :
  forall (n : Z) (acc : string) (d : nat),
    (1 <= d <= fuel)%nat ->
    16 ^ (Z.of_nat d - 1) <= n < 16 ^ Z.of_nat d ->
    String.length (hex_digits fuel n acc) = (String.length acc + d)%nat.
Proof.
  induction fuel as [| fuel IH]; intros n acc d Hd Hn; [lia |].
  cbn [hex_digits].
  assert (H16 : 0 < 16 ^ (Z.of_nat d - 1)) by (apply Z.pow_pos_nonneg; lia).
  destruct (Z.eqb_spec (n / 16) 0) as [Hz | Hnz].
  - assert (Hn16 : n < 16) by (apply Z.div_small_iff in Hz; lia).
    assert (d = 1%nat).
    { destruct (Nat.eq_dec d 1) as [E | E]; [exact E |].
      assert (16 ^ 1 <= 16 ^ (Z.of_nat d - 1)) by (apply Z.pow_le_mono_r; lia).
      lia. }
    subst d. cbn. lia.
  - assert (Hq : 0 < n / 16).
    { pose proof (Z.div_pos n 16 ltac:(lia) ltac:(lia)). lia. }
    assert (Hd2 : (2 <= d)%nat).
    { destruct (Nat.eq_dec d 1) as [E | E]; [| lia].
      subst d. cbn in Hn. assert (n / 16 = 0) by (apply Z.div_small; lia). lia. }
    rewrite (IH (n / 16) _ (d - 1)%nat).
    + cbn [String.length]. lia.
    + lia.
    + replace (Z.of_nat (d - 1)) with (Z.of_nat d - 1) by lia.
      replace (Z.of_nat d) with (Z.succ (Z.of_nat d - 1)) in Hn at 2 by lia.
      replace (Z.of_nat d - 1) with (Z.succ (Z.of_nat d - 1 - 1)) in Hn at 1 by lia.
      rewrite !Z.pow_succ_r in Hn by lia.
      split.
      * apply Z.div_le_lower_bound; lia.
      * apply Z.div_lt_upper_bound; lia.
Qed.

(** A failure code has its top bit set, so it prints as eight digits. *)
Lemma length_format_X_failed (hr : HRESULT) :
  FAILED hr = true -> String.length (format_X hr) = 8%nat.
Proof.
  unfold FAILED, format_X. intros H. apply Z.ltb_lt in H.
  assert (Hu : 2 ^ 31 <= to_uint32 hr < 2 ^ 32).
  { unfold to_int32, to_uint32 in *.
    pose proof (Z.mod_pos_bound hr (2 ^ 32) ltac:(lia)).
    pose proof (Z.mod_pos_bound (hr + 2 ^ 31) (2 ^ 32) ltac:(lia)).
    pose proof (Z.div_mod hr (2 ^ 32) ltac:(lia)).
    pose proof (Z.div_mod (hr + 2 ^ 31) (2 ^ 32) ltac:(lia)).
    lia. }
  rewrite (length_hex_digits 8 (to_uint32 hr) EmptyString 8); [reflexivity | lia |].
  change (16 ^ (Z.of_nat 8 - 1)) with (2 ^ 28).
  change (16 ^ Z.of_nat 8) with (2 ^ 32). lia.
Qed.

Lemma format_X_inj (x y : Z) :
  format_X x = format_X y <-> to_uint32 x = to_uint32 y.
Proof.
  split; intros H.
  - pose proof (hex_value_format_X x) as Hx.
    rewrite H, hex_value_format_X in Hx. injection Hx as Hx. symmetry. exact Hx.
  - unfold format_X. rewrite H. reflexivity.
Qed.

Lemma snprintf_literal (format : string) (args : list printf_arg) :
  no_percent format = true -> snprintf format args = format.
Proof.
  induction format as [| c f IH]; [reflexivity |].
  cbn [no_percent snprintf]. intros H. apply andb_true_iff in H.
  destruct H as [Hc Hf]. apply negb_true_iff in Hc. rewrite Hc, (IH Hf).
  reflexivity.
Qed.

(** ** [checkErrors] and [string_format] *)

Lemma not_FAILED_iff (hr : HRESULT) : FAILED hr = false <-> 0 <= to_int32 hr.
Proof. unfold FAILED. rewrite Z.ltb_ge. reflexivity. Qed.

(** X1.  [checkErrors] makes no OS call and changes nothing.  It returns
    exactly when the result code, read as a signed 32-bit integer, is not
    negative (so success codes other than zero pass too); otherwise it
    throws the message (up to its first NUL) followed by the code in
    parentheses as exactly eight hexadecimal digits, which read back as
    the unsigned 32-bit code. *)
Theorem checkErrors_throws_iff_failed :
  forall (W : Type) (os : OS W) (w : W) (hr : HRESULT) (error_message : string),
    let r := run os (checkErrors hr error_message) w in
    log r = [] /\ world r = w
    /\ (outcome r = Returned tt <-> 0 <= to_int32 hr)
    /\ (to_int32 hr < 0 ->
        exists digits : string,
          outcome r = Thrown (c_str error_message ++ " (0x" ++ digits ++ ")")
          /\ String.length digits = 8%nat
          /\ hex_value digits = Some (to_uint32 hr)).
Proof.
  intros W os w hr msg r. subst r. rewrite run_checkErrors.
  cbn [log world outcome].
  split; [reflexivity |]. split; [reflexivity |].
  destruct (FAILED hr) eqn:E.
  - assert (Hneg : to_int32 hr < 0) by (apply Z.ltb_lt; exact E).
    split.
    + split; [discriminate | lia].
    + intros _. exists (format_X hr).
      split; [reflexivity |].
      split; [apply length_format_X_failed; exact E | apply hex_value_format_X].
  - apply not_FAILED_iff in E.
    split; [split; trivial | lia].
Qed.

(** X2.  The text [string_format] makes from the add-on's one format,
    "%s (0x%X)", has no embedded NUL, and for a given message two result
    codes give the same text exactly when they are the same 32-bit code:
    the code can be recovered from the error text. *)
Theorem error_text_determines_code :
  forall (error_message : string) (x y : HRESULT),
    has_NUL (string_format "%s (0x%X)" [arg_s error_message; arg_X x]) = false
    /\ (string_format "%s (0x%X)" [arg_s error_message; arg_X x]
        = string_format "%s (0x%X)" [arg_s error_message; arg_X y]
        <-> to_uint32 x = to_uint32 y).
Proof.
  intros msg x y. rewrite !string_format_s_X. split.
  - rewrite !has_NUL_append, has_NUL_c_str.
    unfold format_X. rewrite has_NUL_hex_digits by reflexivity. reflexivity.
  - rewrite <- format_X_inj. split; intros H.
    + apply append_cancel_l in H. apply append_cancel_l in H.
      apply append_cancel_r in H. exact H.
    + rewrite H. reflexivity.
Qed.

(** X3.  A format without any conversion directive comes back as it is
    (up to its first NUL), whatever arguments are passed along. *)
Theorem string_format_literal :
  forall (format : string) (args : list printf_arg),
    no_percent (c_str format) = true ->
    string_format format args = c_str format.
Proof.
  intros format args H. unfold string_format. apply snprintf_literal, H.
Qed.

Lemma string_format_literal_witness :
  no_percent (c_str "setting volume") = true
  /\ string_format "setting volume" [arg_X 5] = "setting volume".
Proof.
  split; [reflexivity |].
  apply (string_format_literal "setting volume" [arg_X 5] eq_refl).
Defined.

(** ** Running the accessor callbacks against any OS *)

Section RunAccessors.
Context {W : Type} (os : OS W) {host : V8}.

Lemma run_GetVolume (info : VolumeControlWrapper.FunctionCallbackInfo)
      (obj : VolumeControlWrapper.t) (w : W) :
  VolumeControlWrapper.Holder info = Some obj ->
  let c := GetMasterVolumeLevelScalar
             (VolumeControl.device (VolumeControlWrapper.device obj)) in
  run os (VolumeControlWrapper.GetVolume info) w
  = {| outcome :=
         Returned
           (if FAILED (fst (fst (os c w)))
            then VolumeControlWrapper.ThrowError
                   ("getting volume (0x" ++ format_X (fst (fst (os c w))) ++ ")")
            else VolumeControlWrapper.Completed
                   (VolumeControlWrapper.rv_double
                      (float_to_double match snd (fst (os c w)) with
                                       | Some v => v
                                       | None => float_0_0
                                       end)));
       world := snd (os c w);
       log := [{| call_of := c; answer := fst (os c w) |}] |}.
Proof.
  intros Hh c. unfold VolumeControlWrapper.GetVolume. rewrite Hh.
  rewrite run_try_catch, run_bind_ret, run_getVolume. cbn [outcome world log].
  fold c. destruct (FAILED (fst (fst (os c w)))); reflexivity.
Qed.

Lemma run_IsMuted (info : VolumeControlWrapper.FunctionCallbackInfo)
      (obj : VolumeControlWrapper.t) (w : W) :
  VolumeControlWrapper.Holder info = Some obj ->
  let c := GetMute (VolumeControl.device (VolumeControlWrapper.device obj)) in
  run os (VolumeControlWrapper.IsMuted info) w
  = {| outcome :=
         Returned
           (if FAILED (fst (fst (os c w)))
            then VolumeControlWrapper.ThrowError
                   ("getting muted state (0x"
                    ++ format_X (fst (fst (os c w))) ++ ")")
            else VolumeControlWrapper.Completed
                   (VolumeControlWrapper.rv_int32
                      match snd (fst (os c w)) with
                      | Some b => b
                      | None => FALSE
                      end));
       world := snd (os c w);
       log := [{| call_of := c; answer := fst (os c w) |}] |}.
Proof.
  intros Hh c. unfold VolumeControlWrapper.IsMuted. rewrite Hh.
  rewrite run_try_catch, run_bind_ret, run_isMuted. cbn [outcome world log].
  fold c. destruct (FAILED (fst (fst (os c w)))); reflexivity.
Qed.

Lemma run_SetMuted (info : VolumeControlWrapper.FunctionCallbackInfo)
      (obj : VolumeControlWrapper.t) (a : Value) (b : bool) (w : W) :
  VolumeControlWrapper.args info = [a] ->
  To_bool a = Some b ->
  VolumeControlWrapper.Holder info = Some obj ->
  let c := SetMute (VolumeControl.device (VolumeControlWrapper.device obj))
                   (BOOL_of_bool b) NULL in
  run os (VolumeControlWrapper.SetMuted info) w
  = {| outcome :=
         Returned
           (if FAILED (fst (os c w))
            then VolumeControlWrapper.ThrowError
                   ("setting mute (0x" ++ format_X (fst (os c w)) ++ ")")
            else VolumeControlWrapper.Completed
                   VolumeControlWrapper.rv_undefined);
       world := snd (os c w);
       log := [{| call_of := c; answer := fst (os c w) |}] |}.
Proof.
  intros Ha Hb Hh c. unfold VolumeControlWrapper.SetMuted,
    VolumeControlWrapper.Length, VolumeControlWrapper.arg.
  rewrite Ha. cbn [List.length Z.of_nat Pos.of_succ_nat Z.eqb Pos.eqb negb nth].
  rewrite Hb, Hh. rewrite run_try_catch.
  rewrite (run_bind_ret os _ (fun _ : unit => VolumeControlWrapper.Completed
                                               VolumeControlWrapper.rv_undefined)).
  rewrite run_setMuted. cbn [outcome world log].
  fold c. destruct (FAILED (fst (os c w))); reflexivity.
Qed.

Lemma run_SetVolume (info : VolumeControlWrapper.FunctionCallbackInfo)
      (obj : VolumeControlWrapper.t) (a : Value) (d : double) (w : W) :
  VolumeControlWrapper.args info = [a] ->
  To_double a = Some d ->
  VolumeControlWrapper.Holder info = Some obj ->
  let v := double_to_float d in
  let c := SetMasterVolumeLevelScalar
             (VolumeControl.device (VolumeControlWrapper.device obj)) v NULL in
  run os (VolumeControlWrapper.SetVolume info) w
  = if float_lt (float_to_double v) double_0_0
       || float_gt (float_to_double v) double_1_0
    then {| outcome := Returned
                         (VolumeControlWrapper.ThrowError
                            "Volume needs to be between 0.0 and 1.0 inclusive");
            world := w; log := [] |}
    else {| outcome :=
              Returned
                (if FAILED (fst (os c w))
                 then VolumeControlWrapper.ThrowError
                        ("setting volume (0x" ++ format_X (fst (os c w)) ++ ")")
                 else VolumeControlWrapper.Completed
                   VolumeControlWrapper.rv_undefined);
            world := snd (os c w);
            log := [{| call_of := c; answer := fst (os c w) |}] |}.
Proof.
  intros Ha Hd Hh v c. unfold VolumeControlWrapper.SetVolume,
    VolumeControlWrapper.Length, VolumeControlWrapper.arg.
  rewrite Ha. cbn [List.length Z.of_nat Pos.of_succ_nat Z.eqb Pos.eqb negb nth].
  rewrite Hd, Hh. rewrite run_try_catch.
  rewrite (run_bind_ret os _ (fun _ : unit => VolumeControlWrapper.Completed
                                               VolumeControlWrapper.rv_undefined)).
  rewrite run_setVolume. fold v.
  destruct (float_lt (float_to_double v) double_0_0
            || float_gt (float_to_double v) double_1_0); [reflexivity |].
  cbv zeta. cbn [outcome world log]. fold c.
  destruct (FAILED (fst (os c w))); reflexivity.
Qed.

Lemma run_New (info : VolumeControlWrapper.FunctionCallbackInfo) (w : W) :
  let a1 := fst (os create_enumerator w) in
  let w1 := snd (os create_enumerator w) in
  let c2 := default_render_endpoint (snd a1) in
  let a2 := fst (os c2 w1) in
  let w2 := snd (os c2 w1) in
  let c3 := activate_volume (snd a2) in
  let a3 := fst (os c3 w2) in
  let w3 := snd (os c3 w2) in
  let e1 := {| call_of := create_enumerator; answer := a1 |} in
  let e2 := {| call_of := c2; answer := a2 |} in
  let e3 := {| call_of := c3; answer := a3 |} in
  run os (VolumeControlWrapper.New info) w
  = if VolumeControlWrapper.IsConstructCall info
    then
      if FAILED (fst a1)
      then {| outcome := Returned (VolumeControlWrapper.ThrowError
                                     (no_enumerator (fst a1)));
              world := w1; log := [e1] |}
      else if FAILED (fst a2)
      then {| outcome := Returned (VolumeControlWrapper.ThrowError
                                     (no_default_endpoint (fst a2)));
              world := w2; log := [e1; e2] |}
      else if FAILED (fst a3)
      then {| outcome := Returned (VolumeControlWrapper.ThrowError
                                     (no_activation (fst a3)));
              world := w3; log := [e1; e2; e3] |}
      else {| outcome :=
                Returned
                  (VolumeControlWrapper.Completed
                     (VolumeControlWrapper.rv_This
                        {| VolumeControlWrapper.device :=
                             {| VolumeControl.device := snd a3 |} |}));
              world := w3; log := [e1; e2; e3] |}
    else {| outcome := Returned
                         (VolumeControlWrapper.ThrowError
                            "The constructor cannot be called as a function.");
            world := w; log := [] |}.
Proof.
  intros a1 w1 c2 a2 w2 c3 a3 w3 e1 e2 e3.
  unfold VolumeControlWrapper.New.
  destruct (VolumeControlWrapper.IsConstructCall info); [| reflexivity].
  rewrite run_try_catch, run_bind_ret, run_VolumeControl. cbv zeta.
  fold a1 w1. fold c2. fold a2 w2. fold c3. fold a3 w3.
  destruct (FAILED (fst a1)); [reflexivity |].
  destruct (FAILED (fst a2)); [reflexivity |].
  destruct (FAILED (fst a3)); reflexivity.
Qed.

End RunAccessors.

(** ** Failure and success of the accessor callbacks *)

Lemma reports_format_X {host : V8} (what : string) (hr : HRESULT) :
  FAILED hr = true ->
  reports what hr
          (Returned (VolumeControlWrapper.ThrowError
                       (what ++ " (0x" ++ format_X hr ++ ")"))).
Proof.
  intros H. exists (format_X hr). split; [reflexivity |].
  split; [apply length_format_X_failed, H | apply hex_value_format_X].
Qed.

(** X4.  Each accessor callback called on an instance makes its one OS
    call on the endpoint and ends with an error exactly when that call
    answers a failure code; the error then names the operation and
    carries that code as eight hexadecimal digits.  A failed OS call never
    passes for a normal return, and a successful one never raises. *)
Theorem endpoint_failure_is_reported :
  forall (W : Type) (os : OS W) (host : V8) (w : W)
         (obj : VolumeControlWrapper.t) (args : list Value) (construct : bool),
    let info := {| VolumeControlWrapper.args := args;
                   VolumeControlWrapper.IsConstructCall := construct;
                   VolumeControlWrapper.Holder := Some obj |} in
    let dev := VolumeControl.device (VolumeControlWrapper.device obj) in
    let raises (o : Outcome VolumeControlWrapper.Completion) :=
      exists msg, o = Returned (VolumeControlWrapper.ThrowError msg) in
    (let hr := fst (fst (os (GetMasterVolumeLevelScalar dev) w)) in
     let o := outcome (run os (VolumeControlWrapper.GetVolume info) w) in
     (raises o <-> FAILED hr = true)
     /\ (FAILED hr = true -> reports "getting volume" hr o))
    /\ (let hr := fst (fst (os (GetMute dev) w)) in
        let o := outcome (run os (VolumeControlWrapper.IsMuted info) w) in
        (raises o <-> FAILED hr = true)
        /\ (FAILED hr = true -> reports "getting muted state" hr o))
    /\ (forall (a : Value) (b : bool),
           args = [a] -> To_bool a = Some b ->
           let hr := fst (os (SetMute dev (BOOL_of_bool b) NULL) w) in
           let o := outcome (run os (VolumeControlWrapper.SetMuted info) w) in
           (raises o <-> FAILED hr = true)
           /\ (FAILED hr = true -> reports "setting mute" hr o))
    /\ (forall (a : Value) (d : double),
           args = [a] -> To_double a = Some d ->
           let v := double_to_float d in
           float_lt (float_to_double v) double_0_0
           || float_gt (float_to_double v) double_1_0 = false ->
           let hr := fst (os (SetMasterVolumeLevelScalar dev v NULL) w) in
           let o := outcome (run os (VolumeControlWrapper.SetVolume info) w) in
           (raises o <-> FAILED hr = true)
           /\ (FAILED hr = true -> reports "setting volume" hr o)).
Proof.
  intros W os host w obj args construct info dev raises.
  assert (Hcase : forall (what : string) (hr : HRESULT)
                         (rv : VolumeControlWrapper.ReturnValue),
             let o := Returned
                        (if FAILED hr
                         then VolumeControlWrapper.ThrowError
                                (what ++ " (0x" ++ format_X hr ++ ")")
                         else VolumeControlWrapper.Completed rv) in
             (raises o <-> FAILED hr = true)
             /\ (FAILED hr = true -> reports what hr o)).
  { intros what hr rv o. subst o raises. cbv beta.
    destruct (FAILED hr) eqn:E.
    - split; [split; [reflexivity | intros _; eexists; reflexivity] |].
      intros _. apply reports_format_X, E.
    - split; [split; [intros [msg H]; discriminate H | discriminate] |].
      discriminate. }
  split; [| split; [| split]].
  - intros hr o. subst o.
    rewrite (run_GetVolume os info obj w eq_refl). cbn [outcome].
    exact (Hcase "getting volume" _ _).
  - intros hr o. subst o.
    rewrite (run_IsMuted os info obj w eq_refl). cbn [outcome].
    exact (Hcase "getting muted state" _ _).
  - intros a b Ha Hb hr o. subst o.
    rewrite (run_SetMuted os info obj a b w Ha Hb eq_refl). cbn [outcome].
    exact (Hcase "setting mute" _ _).
  - intros a d Ha Hd v Hin hr o. subst o.
    rewrite (run_SetVolume os info obj a d w Ha Hd eq_refl).
    fold v. rewrite Hin. cbn [outcome].
    exact (Hcase "setting volume" _ _).
Qed.

(** X5.  When the OS call succeeds, the getters hand the script what the
    OS wrote and nothing else happens (one call, no write).  [getVolume]
    widens the binary32 level to a binary64 number of exactly the same
    value, which narrows back to the same binary32 level; [isMuted] hands
    over the OS's flag as it is.  If the OS succeeds without writing its
    out-parameter, the answers are the initial 0.0 and 0. *)
Theorem getters_report_what_the_OS_holds :
  forall (W : Type) (os : OS W) (host : V8) (w : W)
         (obj : VolumeControlWrapper.t) (args : list Value) (construct : bool),
    let info := {| VolumeControlWrapper.args := args;
                   VolumeControlWrapper.IsConstructCall := construct;
                   VolumeControlWrapper.Holder := Some obj |} in
    let dev := VolumeControl.device (VolumeControlWrapper.device obj) in
    let level := fst (os (GetMasterVolumeLevelScalar dev) w) in
    let flag := fst (os (GetMute dev) w) in
    let volume := run os (VolumeControlWrapper.GetVolume info) w in
    let muted := run os (VolumeControlWrapper.IsMuted info) w in
    calls (log volume) = [GetMasterVolumeLevelScalar dev]
    /\ calls (log muted) = [GetMute dev]
    /\ (FAILED (fst level) = false ->
        forall v : float,
          match snd level with Some v' => v' | None => float_0_0 end = v ->
          is_float v = true ->
          exists d : double,
            outcome volume
            = Returned (VolumeControlWrapper.Completed
                          (VolumeControlWrapper.rv_double d))
            /\ is_double d = true
            /\ xeq (value_of d) (value_of v)
            /\ double_to_float d = v)
    /\ (FAILED (fst flag) = false ->
        outcome muted
        = Returned (VolumeControlWrapper.Completed
                      (VolumeControlWrapper.rv_int32
                         match snd flag with Some b => b | None => 0 end))).
Proof.
  intros W os host w obj args construct info dev level flag volume muted.
  subst volume muted.
  rewrite (run_GetVolume os info obj w eq_refl),
    (run_IsMuted os info obj w eq_refl).
  cbn [outcome log calls map call_of]. fold dev. fold level. fold flag.
  split; [reflexivity |]. split; [reflexivity |]. split.
  - intros Hok v Hv Hfloat. rewrite Hok, Hv.
    exists (float_to_double v). split; [reflexivity |].
    destruct (float_to_double_exact v Hfloat) as [Hd Hx].
    split; [exact Hd |]. split; [exact Hx |].
    apply double_to_float_float_to_double, Hfloat.
  - intros Hok. rewrite Hok. reflexivity.
Qed.

(** ** Construction through the binding *)

(** X6.  [New] hands back an object exactly when it is called as a
    constructor and the three OS steps all succeed; the object then wraps
    the interface pointer the activation handed back, and the three steps
    are the only calls.  Called as a plain function it ends with its own
    error without touching the OS. *)
Theorem New_constructs_iff :
  forall (W : Type) (os : OS W) (host : V8)
         (info : VolumeControlWrapper.FunctionCallbackInfo) (w : W),
    let a1 := fst (os create_enumerator w) in
    let w1 := snd (os create_enumerator w) in
    let c2 := default_render_endpoint (snd a1) in
    let a2 := fst (os c2 w1) in
    let w2 := snd (os c2 w1) in
    let c3 := activate_volume (snd a2) in
    let a3 := fst (os c3 w2) in
    let r := run os (VolumeControlWrapper.New info) w in
    let constructed :=
      VolumeControlWrapper.IsConstructCall info = true
      /\ FAILED (fst a1) = false /\ FAILED (fst a2) = false
      /\ FAILED (fst a3) = false in
    ((exists obj, outcome r = Returned (VolumeControlWrapper.Completed
                                          (VolumeControlWrapper.rv_This obj)))
     <-> constructed)
    /\ (constructed ->
        outcome r
        = Returned (VolumeControlWrapper.Completed
                      (VolumeControlWrapper.rv_This
                         {| VolumeControlWrapper.device :=
                              {| VolumeControl.device := snd a3 |} |}))
        /\ calls (log r) = [create_enumerator; c2; c3])
    /\ (VolumeControlWrapper.IsConstructCall info = false ->
        r = {| outcome := Returned
                            (VolumeControlWrapper.ThrowError
                               "The constructor cannot be called as a function.");
               world := w; log := [] |}).
Proof.
  intros W os host info w a1 w1 c2 a2 w2 c3 a3 r constructed.
  assert (Hr : r = run os (VolumeControlWrapper.New info) w) by reflexivity.
  rewrite run_New in Hr. cbv zeta in Hr.
  fold a1 w1 in Hr. fold c2 in Hr. fold a2 w2 in Hr. fold c3 in Hr. fold a3 in Hr.
  subst constructed. rewrite Hr.
  destruct (VolumeControlWrapper.IsConstructCall info);
    [destruct (FAILED (fst a1));
     [| destruct (FAILED (fst a2)); [| destruct (FAILED (fst a3))]] |];
    cbn [outcome log calls map call_of];
    (split; [split; [intros [obj H]; try discriminate H
                    | intros (H0 & H1 & H2 & H3); try discriminate]
            | split; [intros (H0 & H1 & H2 & H3); try discriminate
                     | intros H; try discriminate H; try reflexivity]]).
  - repeat split.
  - eexists; reflexivity.
  - split; reflexivity.
Qed.

(** X7.  The interface pointer acquired at construction is the one every
    later accessor call is made on: whatever the world has become and
    whatever the arguments, the OS calls of the four accessor callbacks
    on a constructed object are all COM calls on the pointer the
    activation handed back; none creates an enumerator, asks for the
    default endpoint again or touches a window. *)
Theorem accessors_use_the_constructed_interface :
  forall (W : Type) (os : OS W) (host : V8)
         (info : VolumeControlWrapper.FunctionCallbackInfo) (w : W)
         (obj : VolumeControlWrapper.t),
    outcome (run os (VolumeControlWrapper.New info) w)
    = Returned (VolumeControlWrapper.Completed
                  (VolumeControlWrapper.rv_This obj)) ->
    let a1 := fst (os create_enumerator w) in
    let w1 := snd (os create_enumerator w) in
    let a2 := fst (os (default_render_endpoint (snd a1)) w1) in
    let w2 := snd (os (default_render_endpoint (snd a1)) w1) in
    let endpoint := snd (fst (os (activate_volume (snd a2)) w2)) in
    forall (w' : W) (args : list Value) (construct : bool),
      let call := {| VolumeControlWrapper.args := args;
                     VolumeControlWrapper.IsConstructCall := construct;
                     VolumeControlWrapper.Holder := Some obj |} in
      let on_endpoint (m : VolumeControlWrapper.NAN_METHOD) :=
        Forall (fun c => self_of c = Some endpoint)
               (calls (log (run os (m call) w'))) in
      on_endpoint VolumeControlWrapper.GetVolume
      /\ on_endpoint VolumeControlWrapper.IsMuted
      /\ on_endpoint VolumeControlWrapper.SetMuted
      /\ on_endpoint VolumeControlWrapper.SetVolume.
Proof.
  intros W os host info w obj Hnew a1 w1 a2 w2 endpoint w' args construct
         call on_endpoint.
  assert (Hobj : obj = {| VolumeControlWrapper.device :=
                            {| VolumeControl.device := endpoint |} |}).
  { rewrite run_New in Hnew. cbv zeta in Hnew.
    fold a1 w1 in Hnew. fold a2 w2 in Hnew.
    destruct (VolumeControlWrapper.IsConstructCall info);
      [| discriminate Hnew].
    destruct (FAILED (fst a1)); [discriminate Hnew |].
    destruct (FAILED (fst a2)); [discriminate Hnew |].
    destruct (FAILED _); [discriminate Hnew |].
    cbn [outcome] in Hnew. injection Hnew as Hnew. symmetry. exact Hnew. }
  subst on_endpoint. cbv beta.
  split; [| split; [| split]].
  - rewrite (run_GetVolume os call obj w' eq_refl). rewrite Hobj.
    repeat constructor.
  - rewrite (run_IsMuted os call obj w' eq_refl). rewrite Hobj.
    repeat constructor.
  - unfold VolumeControlWrapper.SetMuted.
    destruct (negb _); [constructor |].
    destruct (To_bool _) as [b |]; [| constructor].
    cbn [VolumeControlWrapper.Holder call].
    rewrite run_try_catch.
    rewrite (run_bind_ret os _ (fun _ : unit => VolumeControlWrapper.Completed
                                                 VolumeControlWrapper.rv_undefined)).
    rewrite run_setMuted. rewrite Hobj. repeat constructor.
  - unfold VolumeControlWrapper.SetVolume.
    destruct (negb _); [constructor |].
    destruct (To_double _) as [d |]; [| constructor].
    cbn [VolumeControlWrapper.Holder call].
    rewrite run_try_catch.
    rewrite (run_bind_ret os _ (fun _ : unit => VolumeControlWrapper.Completed
                                                 VolumeControlWrapper.rv_undefined)).
    rewrite run_setVolume. rewrite Hobj.
    destruct (_ || _); repeat constructor.
Qed.

(** On the healthy stub the object wraps pointer 12288 and a later
    [setMuted] goes to that pointer. *)
Lemma accessors_use_the_constructed_interface_witness :
  let new := @VolumeControlWrapper.Build_FunctionCallbackInfo Stub.host
               [] true None in
  outcome (run Stub.os (@VolumeControlWrapper.New Stub.host new) Stub.healthy)
  = Returned (VolumeControlWrapper.Completed
                (VolumeControlWrapper.rv_This Stub.accessor))
  /\ Forall (fun c => self_of c = Some 12288)
            (calls (log (run Stub.os
                           (@VolumeControlWrapper.SetMuted Stub.host
                              (Stub.method_call (Some Stub.accessor)
                                 [Stub.js_boolean true]))
                           Stub.translator_closed))).
Proof.
  intros new. split; [reflexivity |].
  exact (proj1 (proj2 (proj2
           (accessors_use_the_constructed_interface Stub.World Stub.os Stub.host
              new Stub.healthy Stub.accessor eq_refl
              Stub.translator_closed [Stub.js_boolean true] false)))).
Defined.

(** ** What the macro trigger does and does not do *)

(** X8.  Whatever the arguments, the receiver and the OS's answers,
    [ExecTranslatorMacro] makes at most four OS calls, all of the
    windowing side (it never touches the audio endpoint), among them at
    most one window lookup and at most one send: nothing is retried.  It
    does not look at the receiver: two calls with the same arguments run
    alike. *)
Theorem ExecTranslatorMacro_stays_on_the_windowing_side :
  forall (W : Type) (os : OS W) (host : V8)
         (info : VolumeControlWrapper.FunctionCallbackInfo) (w : W),
    let l := calls (log (run os (VolumeControlWrapper.ExecTranslatorMacro info) w)) in
    Forall (fun c => is_windowing c = true) l
    /\ (List.length l <= 4)%nat
    /\ (List.length (filter is_find l) <= 1)%nat
    /\ (List.length (filter is_send l) <= 1)%nat
    /\ (forall info' : VolumeControlWrapper.FunctionCallbackInfo,
           VolumeControlWrapper.args info' = VolumeControlWrapper.args info ->
           run os (VolumeControlWrapper.ExecTranslatorMacro info') w
           = run os (VolumeControlWrapper.ExecTranslatorMacro info) w).
Proof.
  intros W os host info w l. subst l.
  split; [| split; [| split; [| split]]].
  5:{ intros info' Hargs.
      unfold VolumeControlWrapper.ExecTranslatorMacro,
        VolumeControlWrapper.Length, VolumeControlWrapper.arg.
      rewrite Hargs. reflexivity. }
  all: rewrite run_ExecTranslatorMacro;
    destruct (negb _); [cbn; try constructor; lia |];
    cbv zeta; destruct (_ =? 0); [cbn; repeat constructor |];
    destruct (To_String _); cbn; repeat constructor.
Qed.

(** X9.  Every send the macro trigger makes is well formed: it goes to
    the window the lookup found, never to the null handle; the block has
    identifier 24 and bytes that start with "Macro: ", contain no NUL and
    are counted exactly by [cbData]; the timeout is 5000. *)
Theorem ExecTranslatorMacro_sends_are_well_formed :
  forall (W : Type) (os : OS W) (host : V8)
         (info : VolumeControlWrapper.FunctionCallbackInfo) (w : W),
    Forall (well_formed_send (fst (os find_translator w)))
           (calls (log (run os (VolumeControlWrapper.ExecTranslatorMacro info) w))).
Proof.
  intros W os host info w.
  rewrite run_ExecTranslatorMacro.
  destruct (negb _); [constructor |].
  cbv zeta.
  destruct (Z.eqb_spec (fst (os find_translator w)) 0) as [Hz | Hnz];
    [repeat constructor |].
  destruct (To_String _) as [name |]; [| repeat constructor].
  cbn [log calls map call_of].
  constructor; [exact I |]. constructor; [exact I |].
  constructor; [| repeat constructor].
  unfold send_copy_data, well_formed_send, copy_data. cbn [dwData cbData lpData].
  split; [reflexivity |]. split; [exact Hnz |].
  split; [reflexivity |]. split; [reflexivity |]. split; [reflexivity |].
  split; [reflexivity |]. split; [eexists; reflexivity |].
  split; [| reflexivity].
  rewrite has_NUL_append, has_NUL_c_str. reflexivity.
Qed.

Lemma stub_last_error_cell : LastErrorCell Stub.os Stub.last_error.
Proof. constructor; intros; reflexivity. Qed.

(** X10.  The last-error code is cleared before the send, so a stale code
    is never reported: on an OS whose last-error code is a cell that
    [SetLastError] writes and [GetLastError] reads, if the send leaves
    that cell alone the call completes normally, whatever the send
    returned and whatever code was pending before the call. *)
Theorem stale_last_error_is_not_reported :
  forall (W : Type) (os : OS W) (cell : W -> DWORD),
    LastErrorCell os cell ->
    forall (host : V8) (info : VolumeControlWrapper.FunctionCallbackInfo)
           (w : W) (a : Value) (name : string),
      VolumeControlWrapper.args info = [a] ->
      To_String a = Some name ->
      let hwnd := fst (os find_translator w) in
      hwnd <> NULL ->
      let w2 := snd (os (SetLastError ERROR_SUCCESS)
                        (snd (os find_translator w))) in
      let send := send_copy_data hwnd ("Macro: " ++ c_str name) in
      cell (snd (os send w2)) = cell w2 ->
      outcome (run os (VolumeControlWrapper.ExecTranslatorMacro info) w)
      = Returned (VolumeControlWrapper.Completed
                    VolumeControlWrapper.rv_undefined).
Proof.
  intros W os cell L host info w a name Hargs Hname hwnd Hfound w2 send Hkept.
  rewrite run_ExecTranslatorMacro.
  unfold VolumeControlWrapper.Length, VolumeControlWrapper.arg.
  rewrite Hargs. cbn [List.length Z.of_nat Pos.of_succ_nat Z.eqb Pos.eqb negb nth].
  rewrite Hname. cbv zeta. fold hwnd.
  destruct (Z.eqb_spec hwnd 0) as [Hz | _]; [destruct (Hfound Hz) |].
  cbn [outcome]. fold w2. fold send.
  rewrite GetLastError_reads, Hkept.
  unfold w2. rewrite SetLastError_writes.
  change (FAILED (HRESULT_FROM_WIN32 ERROR_SUCCESS)) with false.
  rewrite andb_false_r. reflexivity.
Qed.

(** A code 5 is pending and the send returns 0 without setting a code:
    the call completes. *)
Lemma stale_last_error_is_not_reported_witness :
  let w := Stub.set_last_error 5
             (Stub.set_send_reply (0, None) Stub.healthy) in
  Stub.last_error w = 5
  /\ outcome (run Stub.os
                (@VolumeControlWrapper.ExecTranslatorMacro Stub.host
                   (Stub.method_call None [Stub.js_string "Foo"]))
                w)
     = Returned (VolumeControlWrapper.Completed
                   VolumeControlWrapper.rv_undefined).
Proof.
  intros w. split; [reflexivity |].
  assert (Hfound : fst (Stub.os find_translator w) <> NULL)
    by (cbn; discriminate).
  exact (stale_last_error_is_not_reported Stub.World Stub.os Stub.last_error
           stub_last_error_cell Stub.host
           (Stub.method_call None [Stub.js_string "Foo"]) w
           (Stub.js_string "Foo") "Foo" eq_refl eq_refl Hfound eq_refl).
Defined.

(** ** Registration *)

Lemma find_app_some {A : Type} (f : A -> bool) (l1 l2 : list A) (x : A) :
  find f l1 = Some x -> find f (l1 ++ l2)%list = Some x.
Proof.
  induction l1 as [| y l1 IH]; [discriminate |].
  cbn [find app]. destruct (f y); [trivial | exact IH].
Qed.

Lemma find_filter_other {A : Type} (name k : string) (o : list (string * A)) :
  name <> k ->
  find (fun p => String.eqb (fst p) name)
       (filter (fun p => negb (String.eqb (fst p) k)) o)
  = find (fun p => String.eqb (fst p) name) o.
Proof.
  intros Hne. induction o as [| p o IH]; [reflexivity |].
  cbn [filter find].
  destruct (String.eqb_spec (fst p) k) as [Ek | Ek]; cbn [negb].
  - destruct (String.eqb_spec (fst p) name) as [En | En].
    + destruct Hne. rewrite <- En, <- Ek. reflexivity.
    + exact IH.
  - cbn [find]. destruct (String.eqb (fst p) name); [reflexivity | exact IH].
Qed.

(** Setting one property leaves the others as they read before. *)
Lemma get_set_other {A : Type} (name k : string) (a : A) (o : list (string * A)) :
  name <> k ->
  VolumeControlWrapper.get_property name
    (VolumeControlWrapper.set_property k a o)
  = VolumeControlWrapper.get_property name o.
Proof.
  intros Hne.
  unfold VolumeControlWrapper.get_property, VolumeControlWrapper.set_property.
  destruct (find (fun p => String.eqb (fst p) name) o) as [x |] eqn:E.
  - rewrite (find_app_some _ _ _ x); [reflexivity |].
    rewrite find_filter_other by exact Hne. exact E.
  - rewrite find_app_none by (rewrite find_filter_other by exact Hne; exact E).
    cbn [find fst].
    destruct (String.eqb_spec k name) as [Ek | _]; [| reflexivity].
    destruct Hne. symmetry. exact Ek.
Qed.

(** X11.  [Init] only defines the export "VolumeControl": every other
    export of the target reads as before, an earlier "VolumeControl" is
    replaced, and registering twice leaves every export reading as after
    registering once. *)
Theorem Init_defines_one_export :
  forall (host : V8)
         (target : list (string * VolumeControlWrapper.FunctionTemplate))
         (name : string),
    (name <> "VolumeControl" ->
     VolumeControlWrapper.get_property name (VolumeControlWrapper.Init target)
     = VolumeControlWrapper.get_property name target)
    /\ VolumeControlWrapper.get_property "VolumeControl"
         (VolumeControlWrapper.Init target)
       = VolumeControlWrapper.get_property "VolumeControl"
           (VolumeControlWrapper.Init [])
    /\ VolumeControlWrapper.get_property name
         (VolumeControlWrapper.Init (VolumeControlWrapper.Init target))
       = VolumeControlWrapper.get_property name
           (VolumeControlWrapper.Init target).
Proof.
  intros host target name.
  split; [| split].
  - intros Hne. unfold VolumeControlWrapper.Init. apply get_set_other, Hne.
  - unfold VolumeControlWrapper.Init. rewrite !get_set_property. reflexivity.
  - destruct (string_dec name "VolumeControl") as [-> | Hne].
    + unfold VolumeControlWrapper.Init. rewrite !get_set_property. reflexivity.
    + unfold VolumeControlWrapper.Init at 1. apply get_set_other, Hne.
Qed.

(** ** Reading and writing through the binding *)

(** X12.  Writing back what was read changes nothing: when [getVolume]
    has handed the script the number [d] for a level [v] of the unit
    interval, [setVolume d] hands the OS exactly [v] again, in any world;
    the widening and the narrowing cancel. *)
Theorem SetVolume_of_GetVolume :
  forall (W : Type) (os : OS W) (host : V8) (w w' : W)
         (obj : VolumeControlWrapper.t) (a : Value) (v : float) (d : double),
    let dev := VolumeControl.device (VolumeControlWrapper.device obj) in
    let get := {| VolumeControlWrapper.args := [];
                  VolumeControlWrapper.IsConstructCall := false;
                  VolumeControlWrapper.Holder := Some obj |} in
    let set := {| VolumeControlWrapper.args := [a];
                  VolumeControlWrapper.IsConstructCall := false;
                  VolumeControlWrapper.Holder := Some obj |} in
    snd (fst (os (GetMasterVolumeLevelScalar dev) w)) = Some v ->
    is_float v = true ->
    xle (XFinite 0) (value_of v) -> xle (value_of v) (XFinite 1) ->
    outcome (run os (VolumeControlWrapper.GetVolume get) w)
    = Returned (VolumeControlWrapper.Completed
                  (VolumeControlWrapper.rv_double d)) ->
    To_double a = Some d ->
    calls (log (run os (VolumeControlWrapper.SetVolume set) w'))
    = [SetMasterVolumeLevelScalar dev v NULL].
Proof.
  intros W os host w w' obj a v d dev get set Hos Hv Hlo Hhi Hget Hd.
  rewrite (run_GetVolume os get obj w eq_refl) in Hget.
  cbn [outcome] in Hget. fold dev in Hget. rewrite Hos in Hget.
  assert (Hdv : d = float_to_double v).
  { destruct (FAILED _); [discriminate Hget |].
    injection Hget as Hget. symmetry. exact Hget. }
  rewrite (run_SetVolume os set obj a d w' eq_refl Hd eq_refl).
  rewrite Hdv, (double_to_float_float_to_double v Hv).
  rewrite (in_range_passes v Hv Hlo Hhi).
  reflexivity.
Qed.

(** A quarter of full volume on the stub: read as 0.25, written back as
    binary32 0.25, whatever else the machine is doing. *)
Lemma SetVolume_of_GetVolume_witness :
  let quarter : float := S754_finite false 8388608 (-25) in
  let d : double := S754_finite false 4503599627370496 (-54) in
  is_float quarter = true
  /\ calls (log (run Stub.os
                   (@VolumeControlWrapper.SetVolume Stub.host
                      (Stub.method_call (Some Stub.accessor) [Stub.js_number d]))
                   Stub.translator_hung))
     = [SetMasterVolumeLevelScalar 12288 quarter NULL].
Proof.
  intros quarter d. split; [reflexivity |].
  assert (Hlo : xle (XFinite 0) (value_of quarter))
    by (cbn; unfold Qle; cbn; lia).
  assert (Hhi : xle (value_of quarter) (XFinite 1))
    by (cbn; unfold Qle; cbn; lia).
  exact (SetVolume_of_GetVolume Stub.World Stub.os Stub.host Stub.healthy
           Stub.translator_hung Stub.accessor (Stub.js_number d) quarter d
           eq_refl eq_refl Hlo Hhi eq_refl eq_refl).
Defined.

(** X13.  Set then get through the binding, on an endpoint that keeps the
    level it is given up to its tolerance: the script's number is rounded
    to binary32 once, on the way in; if the rounded level is in the unit
    interval and neither OS call fails, [setVolume] completes and
    [getVolume] hands back, widened without further error, a level within
    the endpoint's tolerance of the rounded one. *)
Theorem SetVolume_then_GetVolume :
  forall (W : Type) (os : OS W) (tol : float -> float -> Prop),
    LawfulEndpoint os tol ->
    forall (host : V8) (w : W) (obj : VolumeControlWrapper.t)
           (a : Value) (d : double),
      let dev := VolumeControl.device (VolumeControlWrapper.device obj) in
      let set := {| VolumeControlWrapper.args := [a];
                    VolumeControlWrapper.IsConstructCall := false;
                    VolumeControlWrapper.Holder := Some obj |} in
      let get := {| VolumeControlWrapper.args := [];
                    VolumeControlWrapper.IsConstructCall := false;
                    VolumeControlWrapper.Holder := Some obj |} in
      let v := double_to_float d in
      To_double a = Some d ->
      is_float v = true ->
      xle (XFinite 0) (value_of v) -> xle (value_of v) (XFinite 1) ->
      let r1 := run os (VolumeControlWrapper.SetVolume set) w in
      let r2 := run os (VolumeControlWrapper.GetVolume get) (world r1) in
      FAILED (fst (os (SetMasterVolumeLevelScalar dev v NULL) w)) = false ->
      FAILED (fst (fst (os (GetMasterVolumeLevelScalar dev) (world r1)))) = false ->
      outcome r1 = Returned (VolumeControlWrapper.Completed
                               VolumeControlWrapper.rv_undefined)
      /\ exists v' : float,
           tol v v'
           /\ outcome r2
              = Returned (VolumeControlWrapper.Completed
                            (VolumeControlWrapper.rv_double (float_to_double v'))).
Proof.
  intros W os tol L host w obj a d dev set get v Hd Hv Hlo Hhi r1 r2.
  subst r2 r1.
  rewrite (run_GetVolume os get obj _ eq_refl).
  rewrite (run_SetVolume os set obj a d w eq_refl Hd eq_refl).
  fold v. fold dev. rewrite (in_range_passes v Hv Hlo Hhi).
  cbn [outcome world]. intros Hset Hread. rewrite Hset, Hread.
  split; [reflexivity |].
  destruct (volume_stored dev NULL v w Hset Hread) as (v' & Hans & Htol).
  exists v'. split; [exact Htol |]. rewrite Hans. reflexivity.
Qed.

(** 0.37 through the binding on the stub. *)
Lemma SetVolume_then_GetVolume_witness :
  let d_0_37 : double := S754_finite false 6665327448508334 (-54) in
  let set := Stub.method_call (Some Stub.accessor) [Stub.js_number d_0_37] in
  let get := Stub.method_call (Some Stub.accessor) [] in
  is_float (double_to_float d_0_37) = true
  /\ exists v' : float,
       double_to_float d_0_37 = v'
       /\ outcome (run Stub.os (@VolumeControlWrapper.GetVolume Stub.host get)
                     (world (run Stub.os
                               (@VolumeControlWrapper.SetVolume Stub.host set)
                               Stub.healthy)))
          = Returned (VolumeControlWrapper.Completed
                        (VolumeControlWrapper.rv_double (float_to_double v'))).
Proof.
  intros d_0_37 set get. split; [reflexivity |].
  assert (Hlo : xle (XFinite 0) (value_of (double_to_float d_0_37)))
    by (cbn; unfold Qle; cbn; lia).
  assert (Hhi : xle (value_of (double_to_float d_0_37)) (XFinite 1))
    by (cbn; unfold Qle; cbn; lia).
  exact (proj2 (SetVolume_then_GetVolume Stub.World Stub.os eq stub_lawful
                  Stub.host Stub.healthy Stub.accessor
                  (Stub.js_number d_0_37) d_0_37
                  eq_refl eq_refl Hlo Hhi eq_refl eq_refl)).
Defined.

(** X14.  Set then ask through the binding, on an endpoint that keeps the
    mute flag it is given: the script's boolean reaches the OS as 1 or 0,
    and if neither OS call fails [isMuted] hands back that same integer,
    1 for true and 0 for false. *)
Theorem SetMuted_then_IsMuted :
  forall (W : Type) (os : OS W) (tol : float -> float -> Prop),
    LawfulEndpoint os tol ->
    forall (host : V8) (w : W) (obj : VolumeControlWrapper.t)
           (a : Value) (b : bool),
      let dev := VolumeControl.device (VolumeControlWrapper.device obj) in
      let set := {| VolumeControlWrapper.args := [a];
                    VolumeControlWrapper.IsConstructCall := false;
                    VolumeControlWrapper.Holder := Some obj |} in
      let ask := {| VolumeControlWrapper.args := [];
                    VolumeControlWrapper.IsConstructCall := false;
                    VolumeControlWrapper.Holder := Some obj |} in
      let flag := if b then 1 else 0 in
      To_bool a = Some b ->
      let r1 := run os (VolumeControlWrapper.SetMuted set) w in
      let r2 := run os (VolumeControlWrapper.IsMuted ask) (world r1) in
      FAILED (fst (os (SetMute dev flag NULL) w)) = false ->
      FAILED (fst (fst (os (GetMute dev) (world r1)))) = false ->
      calls (log r1) = [SetMute dev flag NULL]
      /\ outcome r1 = Returned (VolumeControlWrapper.Completed
                                  VolumeControlWrapper.rv_undefined)
      /\ outcome r2 = Returned (VolumeControlWrapper.Completed
                                  (VolumeControlWrapper.rv_int32 flag)).
Proof.
  intros W os tol L host w obj a b dev set ask flag Hb r1 r2.
  subst r2 r1.
  rewrite (run_IsMuted os ask obj _ eq_refl).
  rewrite (run_SetMuted os set obj a b w eq_refl Hb eq_refl).
  fold dev. change (BOOL_of_bool b) with flag.
  cbn [outcome world log calls map call_of]. intros Hset Hread.
  rewrite Hset, Hread.
  split; [reflexivity |]. split; [reflexivity |].
  rewrite (mute_stored dev NULL flag w Hset Hread). reflexivity.
Qed.

(** Muting the healthy stub through the binding and asking. *)
Lemma SetMuted_then_IsMuted_witness :
  outcome (run Stub.os
             (@VolumeControlWrapper.IsMuted Stub.host
                (Stub.method_call (Some Stub.accessor) []))
             (world (run Stub.os
                       (@VolumeControlWrapper.SetMuted Stub.host
                          (Stub.method_call (Some Stub.accessor)
                             [Stub.js_boolean true]))
                       Stub.healthy)))
  = Returned (VolumeControlWrapper.Completed (VolumeControlWrapper.rv_int32 1)).
Proof.
  exact (proj2 (proj2 (SetMuted_then_IsMuted Stub.World Stub.os eq stub_lawful
                         Stub.host Stub.healthy Stub.accessor
                         (Stub.js_boolean true) true
                         eq_refl eq_refl eq_refl))).
Defined.

(** ** The binding surface, callback by callback *)


